(** * JewelleryViewer: a shallow embedding of the viewer component

    The component [src/app/components/JewelleryViewer.tsx] keeps its
    scene, camera, renderer, controls and models in long-lived refs and
    mutates them from event handlers and loader callbacks.  The embedding
    below threads one explicit [State] through every handler.

    Conventions of the embedding:
    - JavaScript numbers are exact rationals ([Qc]) extended with one
      [NonFinite] value standing for [Infinity], [-Infinity] and [NaN]:
      every sum, difference, product, minimum and maximum the component
      takes of a non-finite operand is again non-finite.  Rounding is not
      modelled: a statement that computes with these numbers describes
      the code where its binary64 arithmetic is exact (see [binary64] and
      [load_arithmetic]).
    - JavaScript strings are [string]s of 8-bit characters.
    - An object that a ref may point to lives in the store [objects] and is
      named by its index; its materials live in a table of that object, so
      two meshes that share a material share the table entry.
    - three.js itself is outside the repository; the few library
      operations the component calls ([Object3D.add], [remove],
      [traverse], [Box3.setFromObject], [Color.setHex], ...) are written
      out next to their uses. *)

From Stdlib Require Import ZArith QArith Qcanon Ascii String.
From stdpp Require Import base decidable option list numbers strings pretty.

Open Scope Qc_scope.
Set Warnings "-register-all".

(* ================================================================== *)
(** * Numbers and vectors *)
(* ================================================================== *)

(** A decimal literal such as [0.9] is [dec 9 10]. *)
Definition dec (n : Z) (d : positive) : Qc := Q2Qc (n # d).

Inductive num : Type :=
| Fin (q : Qc)
| NonFinite.

#[global] Instance num_eq_dec : EqDecision num.
Proof. solve_decision. Defined.

Definition nlift2 (f : Qc → Qc → Qc) (a b : num) : num :=
  match a, b with
  | Fin x, Fin y => Fin (f x y)
  | _, _ => NonFinite
  end.

Definition nadd : num → num → num := nlift2 Qcplus.
Definition nsub : num → num → num := nlift2 Qcminus.
Definition nmul : num → num → num := nlift2 Qcmult.

(** [a / b]: a zero divisor gives [Infinity] or [NaN].  On numbers the
    component divides only by the largest dimension of a freshly parsed
    model, which is finite, so a non-finite divisor is not reached. *)
Definition ndiv (a b : num) : num :=
  match a, b with
  | Fin x, Fin y => if decide (y = 0) then NonFinite else Fin (x / y)
  | _, _ => NonFinite
  end.

Definition Qcmin (x y : Qc) : Qc := if decide (x ≤ y) then x else y.
Definition Qcmax (x y : Qc) : Qc := if decide (x ≤ y) then y else x.

(** [Math.min] and [Math.max]. *)
Definition nmin : num → num → num := nlift2 Qcmin.
Definition nmax : num → num → num := nlift2 Qcmax.

(** [a < b]; a comparison with [NaN] is false, and the boxes the component
    builds never hold [max = -Infinity] against [min = +Infinity]. *)
Definition nlt (a b : num) : bool :=
  match a, b with
  | Fin x, Fin y => bool_decide (x < y)
  | _, _ => false
  end.

Record vec3 : Type := Vec3 { vx : num; vy : num; vz : num }.

#[global] Instance vec3_eq_dec : EqDecision vec3.
Proof. solve_decision. Defined.

Definition vlift2 (f : num → num → num) (a b : vec3) : vec3 :=
  Vec3 (f (vx a) (vx b)) (f (vy a) (vy b)) (f (vz a) (vz b)).

Definition vadd : vec3 → vec3 → vec3 := vlift2 nadd.
Definition vsub : vec3 → vec3 → vec3 := vlift2 nsub.
Definition vmulv : vec3 → vec3 → vec3 := vlift2 nmul.
Definition vmin : vec3 → vec3 → vec3 := vlift2 nmin.
Definition vmax : vec3 → vec3 → vec3 := vlift2 nmax.
Definition vscale (k : num) (a : vec3) : vec3 :=
  Vec3 (nmul (vx a) k) (nmul (vy a) k) (nmul (vz a) k).

Definition fin3 (x y z : Qc) : vec3 := Vec3 (Fin x) (Fin y) (Fin z).
Definition vzero : vec3 := fin3 0 0 0.
Definition vone : vec3 := fin3 1 1 1.

(** A point of a parsed asset: always finite. *)
Definition point : Type := Qc * Qc * Qc.
Definition vec_of_point (p : point) : vec3 :=
  let '(x, y, z) := p in fin3 x y z.

(* ================================================================== *)
(** * [THREE.Box3] *)
(* ================================================================== *)

(** three.js encodes the empty box as [min = +Infinity], [max = -Infinity];
    here it is a constructor of its own. *)
Inductive Box3 : Type :=
| EmptyBox
| Box (bmin bmax : vec3).

#[global] Instance Box3_eq_dec : EqDecision Box3.
Proof. solve_decision. Defined.

Definition expandByPoint (b : Box3) (p : vec3) : Box3 :=
  match b with
  | EmptyBox => Box p p
  | Box lo hi => Box (vmin lo p) (vmax hi p)
  end.

Definition isEmpty (b : Box3) : bool :=
  match b with
  | EmptyBox => true
  | Box lo hi =>
      nlt (vx hi) (vx lo) || nlt (vy hi) (vy lo) || nlt (vz hi) (vz lo)
  end.

Definition getCenter (b : Box3) : vec3 :=
  match b with
  | EmptyBox => vzero
  | Box lo hi =>
      if isEmpty b then vzero else vscale (Fin (dec 5 10)) (vadd lo hi)
  end.

Definition getSize (b : Box3) : vec3 :=
  match b with
  | EmptyBox => vzero
  | Box lo hi => if isEmpty b then vzero else vsub hi lo
  end.

(** [Math.max(size.x, size.y, size.z)]. *)
Definition max3 (v : vec3) : num := nmax (nmax (vx v) (vy v)) (vz v).

(* ================================================================== *)
(** * Strings *)
(* ================================================================== *)

Definition lower_ascii (c : ascii) : ascii :=
  let n := nat_of_ascii c in
  if (65 <=? n)%nat && (n <=? 90)%nat then ascii_of_nat (n + 32) else c.

(** [String.prototype.toLowerCase]. *)
Fixpoint toLowerCase (s : string) : string :=
  match s with
  | EmptyString => EmptyString
  | String c s' => String (lower_ascii c) (toLowerCase s')
  end.

(** [String.prototype.includes]. *)
Fixpoint includes (s needle : string) : bool :=
  String.prefix needle s ||
  match s with
  | EmptyString => false
  | String _ s' => includes s' needle
  end.

(** [s.replace('#', '')]: the first occurrence only. *)
Fixpoint replace_hash (s : string) : string :=
  match s with
  | EmptyString => EmptyString
  | String c s' =>
      if Ascii.eqb c "#"%char then s' else String c (replace_hash s')
  end.

Definition hex_digit (c : ascii) : option Z :=
  let n := Z.of_nat (nat_of_ascii c) in
  if (48 <=? n)%Z && (n <=? 57)%Z then Some (n - 48)%Z
  else if (65 <=? n)%Z && (n <=? 70)%Z then Some (n - 55)%Z
  else if (97 <=? n)%Z && (n <=? 102)%Z then Some (n - 87)%Z
  else None.

Definition is_hex_digit (c : ascii) : bool :=
  match hex_digit c with Some _ => true | None => false end.

(** The longest prefix of hexadecimal digits, read as a number;
    [None] when the string does not start with a digit. *)
Fixpoint hex_prefix (acc : option Z) (s : string) : option Z :=
  match s with
  | EmptyString => acc
  | String c s' =>
      match hex_digit c with
      | Some d => hex_prefix (Some (16 * default 0%Z acc + d)%Z) s'
      | None => acc
      end
  end.

Definition is_js_space (c : ascii) : bool :=
  let n := nat_of_ascii c in
  ((9 <=? n)%nat && (n <=? 13)%nat) || (n =? 32)%nat || (n =? 160)%nat.

Fixpoint trim_start (s : string) : string :=
  match s with
  | EmptyString => EmptyString
  | String c s' => if is_js_space c then trim_start s' else s
  end.

Definition strip_0x (s : string) : string :=
  match s with
  | String "0" (String "x" r) => r
  | String "0" (String "X" r) => r
  | _ => s
  end.

(** [parseInt(s, 16)]; [None] is [NaN].  Leading white space, a sign and a
    [0x] prefix are skipped, then the longest run of digits is read.
    (Beyond 2^53 JavaScript rounds; this is exact.) *)
Definition parseInt16 (s : string) : option Z :=
  let t := trim_start s in
  match t with
  | String "-" r => Z.opp <$> hex_prefix None (strip_0x r)
  | String "+" r => hex_prefix None (strip_0x r)
  | _ => hex_prefix None (strip_0x t)
  end.

(** [/^#[0-9A-F]{6}$/i.test(s)]. *)
Definition is_hex_color (s : string) : bool :=
  match s with
  | String c r =>
      Ascii.eqb c "#"%char && (String.length r =? 6)%nat &&
      forallb is_hex_digit (list_ascii_of_string r)
  | EmptyString => false
  end.

(* ================================================================== *)
(** * Configuration and enumerations *)
(* ================================================================== *)

Inductive MaterialType : Type := gold | rosegold | platinum | custom.
Inductive CameraPreset : Type := front | side | top | detail | iso.
Inductive LightingPreset : Type := studio | dramatic | soft | natural.

#[global] Instance MaterialType_eq_dec : EqDecision MaterialType.
Proof. solve_decision. Defined.
#[global] Instance CameraPreset_eq_dec : EqDecision CameraPreset.
Proof. solve_decision. Defined.
#[global] Instance LightingPreset_eq_dec : EqDecision LightingPreset.
Proof. solve_decision. Defined.

(** What [setMaterial] applies: [s_color] is a JavaScript number, [None]
    being [NaN]. *)
Record Settings : Type := MkSettings {
  s_color : option Z;
  s_metalness : Qc;
  s_roughness : Qc;
  s_envMapIntensity : Qc
}.

#[global] Instance Settings_eq_dec : EqDecision Settings.
Proof. solve_decision. Defined.

(** [CONFIG.materials]; the table has no entry for [custom]. *)
Definition CONFIG_materials (t : MaterialType) : option Settings :=
  match t with
  | gold => Some (MkSettings (Some 0xFFD700%Z) (dec 9 10) (dec 3 10) (dec 8 10))
  | rosegold => Some (MkSettings (Some 0xB76E79%Z) (dec 9 10) (dec 3 10) (dec 8 10))
  | platinum => Some (MkSettings (Some 0xffffff%Z) (dec 9 10) (dec 3 10) (dec 7 10))
  | custom => None
  end.

(** [CONFIG.hdriUrls]. *)
Definition CONFIG_hdriUrls (p : LightingPreset) : string :=
  match p with
  | studio => "https://dl.polyhaven.org/file/ph-assets/HDRIs/hdr/1k/brown_photostudio_02_1k.hdr"
  | dramatic => "https://dl.polyhaven.org/file/ph-assets/HDRIs/hdr/1k/studio_small_03_1k.hdr"
  | soft => "https://dl.polyhaven.org/file/ph-assets/HDRIs/hdr/1k/studio_small_05_1k.hdr"
  | natural => "https://dl.polyhaven.org/file/ph-assets/HDRIs/hdr/1k/lebombo_1k.hdr"
  end.

(* ================================================================== *)
(** * Materials, geometry and objects *)
(* ================================================================== *)

Inductive Mapping : Type := UVMapping | EquirectangularReflectionMapping.

Record Texture : Type := MkTexture {
  tex_source : string;
  tex_mapping : Mapping
}.

#[global] Instance Mapping_eq_dec : EqDecision Mapping.
Proof. solve_decision. Defined.
#[global] Instance Texture_eq_dec : EqDecision Texture.
Proof. solve_decision. Defined.

(** [THREE.Color] as its three 8-bit channels. *)
Record Color : Type := MkColor { cr : Z; cg : Z; cb : Z }.

#[global] Instance Color_eq_dec : EqDecision Color.
Proof. solve_decision. Defined.

(** [Color.setHex(hex)]: [hex >> 16 & 255], [hex >> 8 & 255], [hex & 255];
    the shifts turn [NaN] into 0. *)
Definition setHex (hex : option Z) : Color :=
  let h := default 0%Z hex in
  MkColor (Z.land (Z.shiftr h 16) 255) (Z.land (Z.shiftr h 8) 255)
          (Z.land h 255).

Definition getHex (c : Color) : Z :=
  (Z.lor (Z.shiftl (cr c) 16) (Z.lor (Z.shiftl (cg c) 8) (cb c)))%Z.

(** [MeshPhysicalMaterial] extends [MeshStandardMaterial]; every other
    material class is [OtherMaterial]. *)
Inductive MaterialClass : Type :=
| MeshStandardMaterial
| MeshPhysicalMaterial
| OtherMaterial.

#[global] Instance MaterialClass_eq_dec : EqDecision MaterialClass.
Proof. solve_decision. Defined.

(** [m instanceof MeshStandardMaterial || m instanceof MeshPhysicalMaterial]. *)
Definition isStandard (c : MaterialClass) : bool :=
  match c with
  | MeshStandardMaterial | MeshPhysicalMaterial => true
  | OtherMaterial => false
  end.

Record Material : Type := MkMaterial {
  mat_class : MaterialClass;
  mat_name : string;
  color : Color;
  metalness : Qc;
  roughness : Qc;
  envMapIntensity : Qc;
  envMap : option Texture;
  needsUpdate : bool
}.

#[global] Instance Material_eq_dec : EqDecision Material.
Proof. solve_decision. Defined.

(** [corners]: the corners of the geometry's bounding box, already mapped
    into the frame of the root object (the component never changes the
    transform of a descendant). *)
Record BufferGeometry : Type := MkGeometry {
  position_count : N;
  index_count : option N;
  corners : list point
}.

(** [mesh.material]: absent, one material (an index into the table of the
    root object), or an array of materials. *)
Inductive MatSlot : Type :=
| NoMaterial
| OneMaterial (i : nat)
| MaterialArray (l : list nat).

Record MeshData : Type := MkMesh {
  geometry : BufferGeometry;
  material : MatSlot;
  castShadow : bool;
  receiveShadow : bool
}.

Inductive Payload : Type :=
| PGroup
| PLight
| PMesh (m : MeshData).

Inductive Node : Type :=
| Nd (payload : Payload) (children : list Node).

(** A root object: what [gltf.scene], the ring and the lights are.  Its
    rotation is the identity. *)
Record Object3D : Type := MkObject {
  position : vec3;
  scale : vec3;
  root : Node;
  mats : list Material
}.

(** The payloads in the order [Object3D.traverse] visits them. *)
Fixpoint payloads (n : Node) : list Payload :=
  match n with
  | Nd p cs => p :: concat (map payloads cs)
  end.

(** The nodes for which [child instanceof THREE.Mesh] holds. *)
Definition meshes (n : Node) : list MeshData :=
  omap (λ p, match p with PMesh m => Some m | _ => None end) (payloads n).

Fixpoint map_meshes (f : MeshData → MeshData) (n : Node) : Node :=
  match n with
  | Nd p cs =>
      Nd (match p with PMesh m => PMesh (f m) | _ => p end)
         (map (map_meshes f) cs)
  end.

Definition truthy_slot (s : MatSlot) : bool :=
  match s with NoMaterial => false | _ => true end.

(** A callback body guarded by
    [material instanceof MeshStandardMaterial || ... MeshPhysicalMaterial],
    run on the material of one mesh.  An array of materials is an instance
    of neither class. *)
Definition on_standard (f : Material → Material) (slot : MatSlot)
    (ms : list Material) : list Material :=
  match slot with
  | OneMaterial i => alter (λ m, if isStandard (mat_class m) then f m else m) i ms
  | _ => ms
  end.

(** The same callback run over every mesh of a traversal. *)
Definition traverse_materials (f : Material → Material) (n : Node)
    (ms : list Material) : list Material :=
  fold_left (λ acc m, on_standard f (material m) acc) (meshes n) ms.

(** The position of a corner in world space, for a root without parent or
    attached to the scene. *)
Definition world (o : Object3D) (p : point) : vec3 :=
  vadd (position o) (vmulv (scale o) (vec_of_point p)).

Definition all_corners (n : Node) : list point :=
  concat (map (λ m, corners (geometry m)) (meshes n)).

(** [new THREE.Box3().setFromObject(o)]: the union of the world-space boxes
    of all geometries below [o]. *)
Definition setFromObject (o : Object3D) : Box3 :=
  fold_left expandByPoint (map (world o) (all_corners (root o))) EmptyBox.

(** What a successful parse hands to the callback: [gltf.scene] is a fresh
    group at the origin with unit scale. *)
Record GLTF : Type := MkGLTF {
  gltf_nodes : list Node;
  gltf_materials : list Material
}.

Definition gltf_scene (g : GLTF) : Object3D :=
  MkObject vzero vone (Nd PGroup (gltf_nodes g)) (gltf_materials g).

Record ModelInfo : Type := MkInfo {
  vertices : N;
  faces : Qc;
  materials : N
}.

#[global] Instance ModelInfo_eq_dec : EqDecision ModelInfo.
Proof. solve_decision. Defined.

(** The statistics loop shared by [createDefaultRing] and both loaders. *)
Definition count_mesh (acc : ModelInfo) (m : MeshData) : ModelInfo :=
  let g := geometry m in
  MkInfo (vertices acc + position_count g)%N
         (faces acc +
          Qc_of_Z (Z.of_N (default (position_count g) (index_count g))) / Qc_of_Z 3)
         (if truthy_slot (material m) then materials acc + 1 else materials acc)%N.

Definition model_info (n : Node) : ModelInfo :=
  fold_left count_mesh (meshes n) (MkInfo 0%N 0 0%N).

(* ================================================================== *)
(** * The state of the component *)
(* ================================================================== *)

(** The scene: its children name objects of the store. *)
Record Scene : Type := MkScene {
  children : list nat;
  environment : option Texture;
  background : Z
}.

Record Camera : Type := MkCamera { cam_position : vec3 }.

#[global] Instance Camera_eq_dec : EqDecision Camera.
Proof. solve_decision. Defined.

Record Controls : Type := MkControls {
  target : vec3;
  minDistance : num;
  maxDistance : num;
  ctl_autoRotate : bool
}.

#[global] Instance Controls_eq_dec : EqDecision Controls.
Proof. solve_decision. Defined.

(** [renderer.getSize()]. *)
Record Renderer : Type := MkRenderer { width : Z; height : Z }.

#[global] Instance Renderer_eq_dec : EqDecision Renderer.
Proof. solve_decision. Defined.

(** What the component does to the outside, oldest first. *)
Inductive Effect : Type :=
| Fetch (url : string)
| Render (through_composer : bool) (w h : Z)
| Download (name : string)
| Console (msg : string)
| Alert (msg : string)
| Timer (ms : nat)
| RequestFullscreen
| ExitFullscreen.

(** The [useState] cells, the [useRef] cells ([composerRef] holds a
    composer or [null]), the object store, [document.fullscreenElement]
    and the effects so far. *)
Record State : Type := MkState {
  loading : bool;
  autoRotate : bool;
  currentMaterial : MaterialType;
  customColor : string;
  cameraPreset : CameraPreset;
  lightingPreset : LightingPreset;
  isFullscreen : bool;
  showStats : bool;
  modelInfo : option ModelInfo;
  isCapturing : bool;
  sceneRef : option Scene;
  cameraRef : option Camera;
  rendererRef : option Renderer;
  controlsRef : option Controls;
  currentModelRef : option nat;
  defaultRingRef : option nat;
  envMapRef : option Texture;
  composerRef : bool;
  objects : list Object3D;
  fullscreenElement : bool;
  effects : list Effect
}.

Definition set_loading (v : bool) (st : State) : State :=
  MkState v (autoRotate st) (currentMaterial st) (customColor st)
    (cameraPreset st) (lightingPreset st) (isFullscreen st) (showStats st)
    (modelInfo st) (isCapturing st) (sceneRef st) (cameraRef st)
    (rendererRef st) (controlsRef st) (currentModelRef st)
    (defaultRingRef st) (envMapRef st) (composerRef st) (objects st)
    (fullscreenElement st) (effects st).
Definition set_autoRotate (v : bool) (st : State) : State :=
  MkState (loading st) v (currentMaterial st) (customColor st)
    (cameraPreset st) (lightingPreset st) (isFullscreen st) (showStats st)
    (modelInfo st) (isCapturing st) (sceneRef st) (cameraRef st)
    (rendererRef st) (controlsRef st) (currentModelRef st)
    (defaultRingRef st) (envMapRef st) (composerRef st) (objects st)
    (fullscreenElement st) (effects st).
Definition set_currentMaterial (v : MaterialType) (st : State) : State :=
  MkState (loading st) (autoRotate st) v (customColor st) (cameraPreset st)
    (lightingPreset st) (isFullscreen st) (showStats st) (modelInfo st)
    (isCapturing st) (sceneRef st) (cameraRef st) (rendererRef st)
    (controlsRef st) (currentModelRef st) (defaultRingRef st) (envMapRef st)
    (composerRef st) (objects st) (fullscreenElement st) (effects st).
Definition set_customColor (v : string) (st : State) : State :=
  MkState (loading st) (autoRotate st) (currentMaterial st) v
    (cameraPreset st) (lightingPreset st) (isFullscreen st) (showStats st)
    (modelInfo st) (isCapturing st) (sceneRef st) (cameraRef st)
    (rendererRef st) (controlsRef st) (currentModelRef st)
    (defaultRingRef st) (envMapRef st) (composerRef st) (objects st)
    (fullscreenElement st) (effects st).
Definition set_cameraPreset (v : CameraPreset) (st : State) : State :=
  MkState (loading st) (autoRotate st) (currentMaterial st) (customColor st)
    v (lightingPreset st) (isFullscreen st) (showStats st) (modelInfo st)
    (isCapturing st) (sceneRef st) (cameraRef st) (rendererRef st)
    (controlsRef st) (currentModelRef st) (defaultRingRef st) (envMapRef st)
    (composerRef st) (objects st) (fullscreenElement st) (effects st).
Definition set_lightingPreset (v : LightingPreset) (st : State) : State :=
  MkState (loading st) (autoRotate st) (currentMaterial st) (customColor st)
    (cameraPreset st) v (isFullscreen st) (showStats st) (modelInfo st)
    (isCapturing st) (sceneRef st) (cameraRef st) (rendererRef st)
    (controlsRef st) (currentModelRef st) (defaultRingRef st) (envMapRef st)
    (composerRef st) (objects st) (fullscreenElement st) (effects st).
Definition set_isFullscreen (v : bool) (st : State) : State :=
  MkState (loading st) (autoRotate st) (currentMaterial st) (customColor st)
    (cameraPreset st) (lightingPreset st) v (showStats st) (modelInfo st)
    (isCapturing st) (sceneRef st) (cameraRef st) (rendererRef st)
    (controlsRef st) (currentModelRef st) (defaultRingRef st) (envMapRef st)
    (composerRef st) (objects st) (fullscreenElement st) (effects st).
Definition set_showStats (v : bool) (st : State) : State :=
  MkState (loading st) (autoRotate st) (currentMaterial st) (customColor st)
    (cameraPreset st) (lightingPreset st) (isFullscreen st) v (modelInfo st)
    (isCapturing st) (sceneRef st) (cameraRef st) (rendererRef st)
    (controlsRef st) (currentModelRef st) (defaultRingRef st) (envMapRef st)
    (composerRef st) (objects st) (fullscreenElement st) (effects st).
Definition set_modelInfo (v : option ModelInfo) (st : State) : State :=
  MkState (loading st) (autoRotate st) (currentMaterial st) (customColor st)
    (cameraPreset st) (lightingPreset st) (isFullscreen st) (showStats st) v
    (isCapturing st) (sceneRef st) (cameraRef st) (rendererRef st)
    (controlsRef st) (currentModelRef st) (defaultRingRef st) (envMapRef st)
    (composerRef st) (objects st) (fullscreenElement st) (effects st).
Definition set_isCapturing (v : bool) (st : State) : State :=
  MkState (loading st) (autoRotate st) (currentMaterial st) (customColor st)
    (cameraPreset st) (lightingPreset st) (isFullscreen st) (showStats st)
    (modelInfo st) v (sceneRef st) (cameraRef st) (rendererRef st)
    (controlsRef st) (currentModelRef st) (defaultRingRef st) (envMapRef st)
    (composerRef st) (objects st) (fullscreenElement st) (effects st).
Definition set_sceneRef (v : option Scene) (st : State) : State :=
  MkState (loading st) (autoRotate st) (currentMaterial st) (customColor st)
    (cameraPreset st) (lightingPreset st) (isFullscreen st) (showStats st)
    (modelInfo st) (isCapturing st) v (cameraRef st) (rendererRef st)
    (controlsRef st) (currentModelRef st) (defaultRingRef st) (envMapRef st)
    (composerRef st) (objects st) (fullscreenElement st) (effects st).
Definition set_cameraRef (v : option Camera) (st : State) : State :=
  MkState (loading st) (autoRotate st) (currentMaterial st) (customColor st)
    (cameraPreset st) (lightingPreset st) (isFullscreen st) (showStats st)
    (modelInfo st) (isCapturing st) (sceneRef st) v (rendererRef st)
    (controlsRef st) (currentModelRef st) (defaultRingRef st) (envMapRef st)
    (composerRef st) (objects st) (fullscreenElement st) (effects st).
Definition set_rendererRef (v : option Renderer) (st : State) : State :=
  MkState (loading st) (autoRotate st) (currentMaterial st) (customColor st)
    (cameraPreset st) (lightingPreset st) (isFullscreen st) (showStats st)
    (modelInfo st) (isCapturing st) (sceneRef st) (cameraRef st) v
    (controlsRef st) (currentModelRef st) (defaultRingRef st) (envMapRef st)
    (composerRef st) (objects st) (fullscreenElement st) (effects st).
Definition set_controlsRef (v : option Controls) (st : State) : State :=
  MkState (loading st) (autoRotate st) (currentMaterial st) (customColor st)
    (cameraPreset st) (lightingPreset st) (isFullscreen st) (showStats st)
    (modelInfo st) (isCapturing st) (sceneRef st) (cameraRef st)
    (rendererRef st) v (currentModelRef st) (defaultRingRef st)
    (envMapRef st) (composerRef st) (objects st) (fullscreenElement st)
    (effects st).
Definition set_currentModelRef (v : option nat) (st : State) : State :=
  MkState (loading st) (autoRotate st) (currentMaterial st) (customColor st)
    (cameraPreset st) (lightingPreset st) (isFullscreen st) (showStats st)
    (modelInfo st) (isCapturing st) (sceneRef st) (cameraRef st)
    (rendererRef st) (controlsRef st) v (defaultRingRef st) (envMapRef st)
    (composerRef st) (objects st) (fullscreenElement st) (effects st).
Definition set_defaultRingRef (v : option nat) (st : State) : State :=
  MkState (loading st) (autoRotate st) (currentMaterial st) (customColor st)
    (cameraPreset st) (lightingPreset st) (isFullscreen st) (showStats st)
    (modelInfo st) (isCapturing st) (sceneRef st) (cameraRef st)
    (rendererRef st) (controlsRef st) (currentModelRef st) v (envMapRef st)
    (composerRef st) (objects st) (fullscreenElement st) (effects st).
Definition set_envMapRef (v : option Texture) (st : State) : State :=
  MkState (loading st) (autoRotate st) (currentMaterial st) (customColor st)
    (cameraPreset st) (lightingPreset st) (isFullscreen st) (showStats st)
    (modelInfo st) (isCapturing st) (sceneRef st) (cameraRef st)
    (rendererRef st) (controlsRef st) (currentModelRef st)
    (defaultRingRef st) v (composerRef st) (objects st)
    (fullscreenElement st) (effects st).
Definition set_composerRef (v : bool) (st : State) : State :=
  MkState (loading st) (autoRotate st) (currentMaterial st) (customColor st)
    (cameraPreset st) (lightingPreset st) (isFullscreen st) (showStats st)
    (modelInfo st) (isCapturing st) (sceneRef st) (cameraRef st)
    (rendererRef st) (controlsRef st) (currentModelRef st)
    (defaultRingRef st) (envMapRef st) v (objects st) (fullscreenElement st)
    (effects st).
Definition set_objects (v : list Object3D) (st : State) : State :=
  MkState (loading st) (autoRotate st) (currentMaterial st) (customColor st)
    (cameraPreset st) (lightingPreset st) (isFullscreen st) (showStats st)
    (modelInfo st) (isCapturing st) (sceneRef st) (cameraRef st)
    (rendererRef st) (controlsRef st) (currentModelRef st)
    (defaultRingRef st) (envMapRef st) (composerRef st) v
    (fullscreenElement st) (effects st).
Definition set_fullscreenElement (v : bool) (st : State) : State :=
  MkState (loading st) (autoRotate st) (currentMaterial st) (customColor st)
    (cameraPreset st) (lightingPreset st) (isFullscreen st) (showStats st)
    (modelInfo st) (isCapturing st) (sceneRef st) (cameraRef st)
    (rendererRef st) (controlsRef st) (currentModelRef st)
    (defaultRingRef st) (envMapRef st) (composerRef st) (objects st) v
    (effects st).
Definition set_effects (v : list Effect) (st : State) : State :=
  MkState (loading st) (autoRotate st) (currentMaterial st) (customColor st)
    (cameraPreset st) (lightingPreset st) (isFullscreen st) (showStats st)
    (modelInfo st) (isCapturing st) (sceneRef st) (cameraRef st)
    (rendererRef st) (controlsRef st) (currentModelRef st)
    (defaultRingRef st) (envMapRef st) (composerRef st) (objects st)
    (fullscreenElement st) v.

Definition log (e : Effect) (st : State) : State :=
  set_effects (effects st ++ [e]) st.

(* ================================================================== *)
(** * three.js operations on the scene and on materials *)
(* ================================================================== *)

Fixpoint remove_first (x : nat) (l : list nat) : list nat :=
  match l with
  | [] => []
  | y :: l' => if decide (x = y) then l' else y :: remove_first x l'
  end.

(** [scene.remove(object)]. *)
Definition scene_remove (id : nat) (sc : Scene) : Scene :=
  MkScene (remove_first id (children sc)) (environment sc) (background sc).

(** [scene.add(object)]: an object that has a parent is removed from it
    first, then pushed. *)
Definition scene_add (id : nat) (sc : Scene) : Scene :=
  MkScene (remove_first id (children sc) ++ [id]) (environment sc)
          (background sc).

Definition set_position (p : vec3) (o : Object3D) : Object3D :=
  MkObject p (scale o) (root o) (mats o).
Definition set_scale (s : vec3) (o : Object3D) : Object3D :=
  MkObject (position o) s (root o) (mats o).
Definition set_root (n : Node) (o : Object3D) : Object3D :=
  MkObject (position o) (scale o) n (mats o).
Definition set_mats (ms : list Material) (o : Object3D) : Object3D :=
  MkObject (position o) (scale o) (root o) ms.

Definition set_color (c : Color) (m : Material) : Material :=
  MkMaterial (mat_class m) (mat_name m) c (metalness m) (roughness m)
             (envMapIntensity m) (envMap m) (needsUpdate m).
Definition set_metalness (v : Qc) (m : Material) : Material :=
  MkMaterial (mat_class m) (mat_name m) (color m) v (roughness m)
             (envMapIntensity m) (envMap m) (needsUpdate m).
Definition set_roughness (v : Qc) (m : Material) : Material :=
  MkMaterial (mat_class m) (mat_name m) (color m) (metalness m) v
             (envMapIntensity m) (envMap m) (needsUpdate m).
Definition set_envMapIntensity (v : Qc) (m : Material) : Material :=
  MkMaterial (mat_class m) (mat_name m) (color m) (metalness m) (roughness m)
             v (envMap m) (needsUpdate m).
Definition set_envMap (t : option Texture) (m : Material) : Material :=
  MkMaterial (mat_class m) (mat_name m) (color m) (metalness m) (roughness m)
             (envMapIntensity m) t (needsUpdate m).
Definition set_needsUpdate (b : bool) (m : Material) : Material :=
  MkMaterial (mat_class m) (mat_name m) (color m) (metalness m) (roughness m)
             (envMapIntensity m) (envMap m) b.

Definition set_shadows (b : bool) (m : MeshData) : MeshData :=
  MkMesh (geometry m) (material m) b b.

(* ================================================================== *)
(** * [createDefaultRing] *)
(* ================================================================== *)

(** [new THREE.TorusGeometry(1, 0.15, 64, 128)]: 65 * 129 vertices,
    64 * 128 * 6 indices, extent 1.15 in x and y and 0.15 in z. *)
Definition torus_geometry : BufferGeometry :=
  MkGeometry 8385%N (Some 49152%N)
    [(- dec 115 100, - dec 115 100, - dec 15 100);
     (dec 115 100, dec 115 100, dec 15 100)].

(** [new THREE.OctahedronGeometry(0.25, 2)], not indexed: 8 * 9 triangles;
    the mesh sits at [y = 1.1] on the ring. *)
Definition diamond_geometry : BufferGeometry :=
  MkGeometry 216%N None
    [(- dec 25 100, dec 85 100, - dec 25 100);
     (dec 25 100, dec 135 100, dec 25 100)].

Definition ring_material (env : option Texture) : Material :=
  MkMaterial MeshStandardMaterial "" (setHex (Some 0xFFD700%Z))
             (dec 9 10) (dec 3 10) (dec 8 10) env false.

Definition diamond_material (env : option Texture) : Material :=
  MkMaterial MeshPhysicalMaterial "" (setHex (Some 0xffffff%Z))
             0 (dec 5 100) (match env with Some _ => dec 8 10 | None => 1 end)
             env false.

Definition new_ring (env : option Texture) : Object3D :=
  MkObject vzero vone
    (Nd (PMesh (MkMesh torus_geometry (OneMaterial 0) false false))
        [Nd (PMesh (MkMesh diamond_geometry (OneMaterial 1) false false)) []])
    [ring_material env; diamond_material env].

Definition createDefaultRing (st : State) : State :=
  let ring := new_ring (envMapRef st) in
  let id := length (objects st) in
  set_modelInfo (Some (model_info (root ring)))
    (set_defaultRingRef (Some id)
      (set_currentModelRef (Some id)
        (set_sceneRef (scene_add id <$> sceneRef st)
          (set_objects (objects st ++ [ring]) st)))).

(* ================================================================== *)
(** * [loadEnvironment] *)
(* ================================================================== *)

(** The body of [loadEnvironment]: the request leaves, the callbacks below
    run when it completes. *)
Definition loadEnvironment (preset : LightingPreset) (st : State) : State :=
  log (Fetch (CONFIG_hdriUrls preset)) st.

Definition env_callback (texture : Texture) (m : Material) : Material :=
  set_needsUpdate true (set_envMap (Some texture) m).

(** [scene.traverse] over the attached objects. *)
Definition scene_traverse (f : Material → Material) (ids : list nat)
    (os : list Object3D) : list Object3D :=
  fold_left
    (λ acc id, alter (λ o, set_mats (traverse_materials f (root o) (mats o)) o) id acc)
    ids os.

(** Success callback of the HDRI request.  Both callbacks close over the
    scene that [loadEnvironment] was called with, which is the scene of
    [sceneRef]; without a scene no request was made. *)
Definition loadEnvironment_onLoad (loaded : Texture) (st : State) : State :=
  match sceneRef st with
  | None => st
  | Some scene =>
      let texture := MkTexture (tex_source loaded) EquirectangularReflectionMapping in
      let scene' := MkScene (children scene) (Some texture) 0x1a1a1a%Z in
      let st1 :=
        set_objects (scene_traverse (env_callback texture) (children scene) (objects st))
          (set_envMapRef (Some texture) (set_sceneRef (Some scene') st)) in
      match currentModelRef st1 with
      | None => set_loading false (createDefaultRing st1)
      | Some _ => st1
      end
  end.

(** Error callback of the HDRI request. *)
Definition loadEnvironment_onError (st : State) : State :=
  match sceneRef st with
  | None => st
  | Some _ =>
      let st1 := log (Console "Error loading HDRI:") st in
      match currentModelRef st1 with
      | None => set_loading false (createDefaultRing st1)
      | Some _ => st1
      end
  end.

(** The effect on [lightingPreset]. *)
Definition setLightingPreset (p : LightingPreset) (st : State) : State :=
  if decide (p = lightingPreset st) then st
  else
    let st1 := set_lightingPreset p st in
    match sceneRef st1 with
    | None => st1
    | Some _ => loadEnvironment p st1
    end.

(* ================================================================== *)
(** * [setMaterial] and [resetScene] *)
(* ================================================================== *)

Definition truthy_string (s : option string) : bool :=
  match s with
  | Some (String _ _) => true
  | _ => false
  end.

(** The branch taken for a material classified as metal. *)
Definition apply_metal (settings : Settings) (m : Material) : Material :=
  set_envMapIntensity (s_envMapIntensity settings)
    (set_roughness (s_roughness settings)
      (set_metalness (s_metalness settings)
        (set_color (setHex (s_color settings)) m))).

(** The [else] branch. *)
Definition apply_other (settings : Settings) (m : Material) : Material :=
  set_roughness (s_roughness settings)
    (set_metalness (s_metalness settings)
      (set_color (setHex (s_color settings)) m)).

Definition is_metal_like (m : Material) : bool :=
  includes (toLowerCase (mat_name m)) "metal" ||
  includes (toLowerCase (mat_name m)) "gold" ||
  bool_decide (dec 5 10 < metalness m).

(** The callback of [model.traverse] in the GLB branch. *)
Definition glb_callback (settings : Settings) (env : option Texture)
    (m : Material) : Material :=
  let m1 := if is_metal_like m then apply_metal settings m
            else apply_other settings m in
  match env with
  | Some t => set_needsUpdate true (set_envMap (Some t) m1)
  | None => m1
  end.

(** The procedural branch: [model] is the ring, a mesh; the guard asks for
    a [MeshStandardMaterial] (or a subclass) on it. *)
Definition ring_branch (settings : Settings) (o : Object3D) : Object3D :=
  match root o with
  | Nd (PMesh m) _ => set_mats (on_standard (apply_metal settings) (material m) (mats o)) o
  | _ => o
  end.

Definition colorHex (type : MaterialType) (color : option string) : option Z :=
  if bool_decide (type = custom) && truthy_string color
  then parseInt16 (replace_hash (default "" color))
  else match CONFIG_materials type with
       | Some s => match s_color s with
                   | Some c => if decide (c = 0%Z) then Some 0xFFD700%Z else Some c
                   | None => Some 0xFFD700%Z
                   end
       | None => Some 0xFFD700%Z
       end.

Definition settings_of (type : MaterialType) (color : option string) : option Settings :=
  if decide (type = custom)
  then Some (MkSettings (colorHex type color) (dec 9 10) (dec 3 10) (dec 8 10))
  else CONFIG_materials type.

Definition setMaterial (type : MaterialType) (color : option string)
    (st : State) : State :=
  let st1 := set_currentMaterial type st in
  let st2 := if bool_decide (type = custom) && truthy_string color
             then set_customColor (default "" color) st1 else st1 in
  match settings_of type color, currentModelRef st2 with
  | Some settings, Some model =>
      if decide (Some model = defaultRingRef st2)
      then set_objects (alter (ring_branch settings) model (objects st2)) st2
      else set_objects
             (alter (λ o, set_mats (traverse_materials
                                      (glb_callback settings (envMapRef st2))
                                      (root o) (mats o)) o)
                    model (objects st2)) st2
  | _, _ => st2
  end.

Definition resetScene (st : State) : State :=
  match sceneRef st with
  | None => st
  | Some scene =>
      match currentModelRef st with
      | Some cur =>
          if decide (Some cur = defaultRingRef st) then st
          else
            let scene1 := scene_remove cur scene in
            match defaultRingRef st with
            | Some ring =>
                set_currentModelRef (Some ring)
                  (set_sceneRef (Some (scene_add ring scene1)) st)
            | None => set_sceneRef (Some scene1) st
            end
      | None => st
      end
  end.

(** The text field of the colour picker. *)
Definition color_text_onChange (value : string) (st : State) : State :=
  if is_hex_color value
  then setMaterial custom (Some value) (set_customColor value st)
  else st.

(** The [<input type="color">] of the colour picker. *)
Definition color_picker_onChange (value : string) (st : State) : State :=
  setMaterial custom (Some value) (set_customColor value st).

(* ================================================================== *)
(** * Screenshot capture *)
(* ================================================================== *)

(** [composerRef.current.render()], or else [renderer.render(scene, camera)]
    when both exist; the effect records the output size at that moment. *)
Definition render_once (st : State) : State :=
  match rendererRef st with
  | None => st
  | Some r =>
      if composerRef st then log (Render true (width r) (height r)) st
      else match sceneRef st, cameraRef st with
           | Some _, Some _ => log (Render false (width r) (height r)) st
           | _, _ => st
           end
  end.

(** [captureScreenshot] up to the call of [toBlob]; the callback below
    closes over [originalSize], the size read here. *)
Definition captureScreenshot (st : State) : State :=
  match rendererRef st with
  | None => st
  | Some originalSize =>
      let scale := 2%Z in
      render_once
        (set_rendererRef
           (Some (MkRenderer (width originalSize * scale) (height originalSize * scale)))
           (set_isCapturing true st))
  end.

(** The callback of [toBlob]: [blob] tells whether a blob was produced,
    [now] is [Date.now()]. *)
Definition toBlob_callback (originalSize : Renderer) (blob : bool) (now : N)
    (st : State) : State :=
  let st1 := if blob then log (Download ("jewellery-" +:+ pretty now +:+ ".png")) st
             else st in
  set_isCapturing false
    (set_rendererRef (const originalSize <$> rendererRef st1) st1).

(** [handleResize]. *)
Definition handleResize (w h : Z) (st : State) : State :=
  set_rendererRef (const (MkRenderer w h) <$> rendererRef st) st.

(* ================================================================== *)
(** * Toggles *)
(* ================================================================== *)

(** [setAutoRotate] followed by the effect on [autoRotate]. *)
Definition setAutoRotate (b : bool) (st : State) : State :=
  if decide (b = autoRotate st) then st
  else
    let st1 := set_autoRotate b st in
    set_controlsRef
      ((λ c, MkControls (target c) (minDistance c) (maxDistance c) b)
         <$> controlsRef st1) st1.

Definition toggleFullscreen (st : State) : State :=
  if negb (fullscreenElement st)
  then set_isFullscreen true (log RequestFullscreen st)
  else set_isFullscreen false (log ExitFullscreen st).

(** [handleFullscreenChange]: the browser has set
    [document.fullscreenElement]. *)
Definition handleFullscreenChange (element : bool) (st : State) : State :=
  log (Timer 100) (set_isFullscreen element (set_fullscreenElement element st)).

Record KeyboardEvent : Type := MkKey {
  target_is_input : bool;
  key : string
}.

Section Viewer.

(** [OrbitControls.update()], from three.js: it re-derives the camera from
    the target and its own limits. *)
Variable orbit_update : Controls → Camera → Controls * Camera.

(* ================================================================== *)
(** * Camera presets and zoom to fit *)
(* ================================================================== *)

Definition finish_update (controls : Controls) (camera : Camera) (st : State) : State :=
  let '(controls', camera') := orbit_update controls camera in
  set_controlsRef (Some controls') (set_cameraRef (Some camera') st).

(** The effect on [cameraPreset]. *)
Definition cameraPreset_effect (st : State) : State :=
  match cameraRef st, controlsRef st, currentModelRef st with
  | Some camera, Some controls, Some id =>
      match objects st !! id with
      | None => st
      | Some model =>
          let box := setFromObject model in
          let center := getCenter box in
          let size := getSize box in
          let maxDim := max3 size in
          let by_ k := nmul maxDim (Fin k) in
          let retarget c :=
            MkControls center (minDistance c) (maxDistance c) (ctl_autoRotate c) in
          match cameraPreset st with
          | front =>
              finish_update (retarget controls)
                (MkCamera (Vec3 (vx center) (vy center)
                                (nadd (vz center) (by_ (dec 15 10))))) st
          | side =>
              finish_update (retarget controls)
                (MkCamera (Vec3 (nadd (vx center) (by_ (dec 15 10)))
                                (vy center) (vz center))) st
          | top =>
              finish_update (retarget controls)
                (MkCamera (Vec3 (vx center)
                                (nadd (vy center) (by_ (dec 15 10)))
                                (vz center))) st
          | detail =>
              finish_update
                (MkControls center (by_ (dec 3 10)) (maxDistance controls)
                            (ctl_autoRotate controls))
                (MkCamera (Vec3 (nadd (vx center) (by_ (dec 8 10)))
                                (nadd (vy center) (by_ (dec 5 10)))
                                (nadd (vz center) (by_ (dec 8 10))))) st
          | iso =>
              finish_update (retarget controls)
                (MkCamera (Vec3 (nadd (vx center) maxDim)
                                (nadd (vy center) (by_ (dec 7 10)))
                                (nadd (vz center) maxDim))) st
          end
      end
  | _, _, _ => st
  end.

(** [setCameraPreset]: the effect runs when the value changes. *)
Definition setCameraPreset (p : CameraPreset) (st : State) : State :=
  if decide (p = cameraPreset st) then st
  else cameraPreset_effect (set_cameraPreset p st).

Definition zoomToFit (st : State) : State :=
  match currentModelRef st, cameraRef st, controlsRef st with
  | Some id, Some camera, Some controls =>
      match objects st !! id with
      | None => st
      | Some model =>
          let box := setFromObject model in
          let center := getCenter box in
          let size := getSize box in
          let maxDim := max3 size in
          finish_update
            (MkControls center (minDistance controls) (maxDistance controls)
                        (ctl_autoRotate controls))
            (MkCamera (Vec3 (vx center) (vy center)
                            (nadd (vz center) (nmul maxDim (Fin (dec 15 10))))))
            st
      end
  | _, _, _ => st
  end.

(* ================================================================== *)
(** * Loading a model *)
(* ================================================================== *)

(** [loadModelFromURL] up to the request. *)
Definition loadModelFromURL (url : string) (st : State) : State :=
  match sceneRef st with
  | None => st
  | Some _ =>
      let st1 := set_loading true st in
      if includes url "skfb.ly"
      then log (Timer 500) (log (Console "Sketchfab model loading:") st1)
      else log (Fetch url) st1
  end.

(** The timer of the short-link branch. *)
Definition sketchfab_timeout (st : State) : State :=
  log (Console "To load this Sketchfab model, you need:") (set_loading false st).

Definition url_callback (t : Texture) (m : Material) : Material :=
  set_needsUpdate true (set_envMapIntensity (dec 8 10) (set_envMap (Some t) m)).

(** Success callback of [loader.load]. *)
Definition loadModelFromURL_onLoad (gltf : GLTF) (st : State) : State :=
  match sceneRef st with
  | None => st
  | Some scene =>
      let scene1 :=
        match currentModelRef st with
        | Some cur =>
            if decide (Some cur = defaultRingRef st) then scene
            else scene_remove cur scene
        | None => scene
        end in
      let model := gltf_scene gltf in
      let box := setFromObject model in
      let center := getCenter box in
      let size := getSize box in
      let model1 := set_position (vsub (position model) center) model in
      let maxDim := max3 size in
      let scaleFactor := ndiv (Fin 2) maxDim in
      let model2 := set_scale (Vec3 scaleFactor scaleFactor scaleFactor) model1 in
      let model3 := set_root (map_meshes (set_shadows false) (root model2)) model2 in
      let model4 :=
        match envMapRef st with
        | Some t =>
            set_mats (traverse_materials (url_callback t) (root model3) (mats model3))
                     model3
        | None => model3
        end in
      let id := length (objects st) in
      setCameraPreset front
        (set_loading false
          (set_modelInfo (Some (model_info (root model4)))
            (set_currentModelRef (Some id)
              (set_sceneRef (Some (scene_add id scene1))
                (set_objects (objects st ++ [model4]) st)))))
  end.

(** Error callback of [loader.load]. *)
Definition loadModelFromURL_onError (st : State) : State :=
  set_loading false (log (Console "Error loading model:") st).

(** [loadUserGLB] up to [readAsArrayBuffer]. *)
Definition loadUserGLB (st : State) : State :=
  match sceneRef st with
  | None => st
  | Some _ => set_loading true st
  end.

Definition file_callback (t : Texture) (m : Material) : Material :=
  set_needsUpdate true (set_envMapIntensity 1 (set_envMap (Some t) m)).

(** Success callback of [loader.parse]. *)
Definition loadUserGLB_onLoad (gltf : GLTF) (st : State) : State :=
  match sceneRef st with
  | None => st
  | Some scene =>
      let scene1 :=
        match currentModelRef st with
        | Some cur => scene_remove cur scene
        | None => scene
        end in
      let model := gltf_scene gltf in
      let box := setFromObject model in
      let center := getCenter box in
      let size := getSize box in
      let model1 :=
        set_position (vadd (position model) (vsub (position model) center)) model in
      let maxDim := max3 size in
      let scaleFactor := ndiv (Fin 2) maxDim in
      let model2 := set_scale (Vec3 scaleFactor scaleFactor scaleFactor) model1 in
      let model3 := set_root (map_meshes (set_shadows true) (root model2)) model2 in
      let model4 :=
        match envMapRef st with
        | Some t =>
            set_mats (traverse_materials (file_callback t) (root model3) (mats model3))
                     model3
        | None => model3
        end in
      let id := length (objects st) in
      setCameraPreset front
        (set_loading false
          (set_modelInfo (Some (model_info (root model4)))
            (set_currentModelRef (Some id)
              (set_sceneRef (Some (scene_add id scene1))
                (set_objects (objects st ++ [model4]) st)))))
  end.

(** Error callback of [loader.parse]. *)
Definition loadUserGLB_onError (st : State) : State :=
  set_loading false
    (log (Alert "Error parsing GLB file") (log (Console "parse error") st)).

(* ================================================================== *)
(** * Keyboard shortcuts *)
(* ================================================================== *)

Definition handleKeyPress (e : KeyboardEvent) (st : State) : State :=
  if target_is_input e then st
  else
    let k := toLowerCase (key e) in
    if String.eqb k "r" then setAutoRotate (negb (autoRotate st)) st
    else if String.eqb k "f" then toggleFullscreen st
    else if String.eqb k "s" then set_showStats (negb (showStats st)) st
    else if String.eqb k "c" then captureScreenshot st
    else if String.eqb k "1" then setCameraPreset front st
    else if String.eqb k "2" then setCameraPreset side st
    else if String.eqb k "3" then setCameraPreset top st
    else if String.eqb k "4" then setCameraPreset detail st
    else if String.eqb k "5" then setCameraPreset iso st
    else st.

(* ================================================================== *)
(** * The component as a transition system *)
(* ================================================================== *)

Inductive Event : Type :=
| EnvLoaded (texture : Texture)
| EnvError
| LightingClicked (p : LightingPreset)
| UrlSubmitted (url : string)
| UrlLoaded (gltf : GLTF)
| UrlError
| SketchfabTimeout
| FileDropped
| FileParsed (gltf : GLTF)
| FileParseError
| ResetClicked
| MaterialClicked (t : MaterialType)
| ColorPicked (value : string)
| ColorTyped (value : string)
| KeyDown (e : KeyboardEvent)
| PresetClicked (p : CameraPreset)
| ZoomToFitClicked
| AutoRotateChecked (b : bool)
| FullscreenClicked
| FullscreenChanged (element : bool)
| StatsClicked
| ScreenshotClicked
| BlobReady (originalSize : Renderer) (blob : bool) (now : N)
| WindowResized (w h : Z).

Definition step (st : State) (ev : Event) : State :=
  match ev with
  | EnvLoaded t => loadEnvironment_onLoad t st
  | EnvError => loadEnvironment_onError st
  | LightingClicked p => setLightingPreset p st
  | UrlSubmitted url => loadModelFromURL url st
  | UrlLoaded g => loadModelFromURL_onLoad g st
  | UrlError => loadModelFromURL_onError st
  | SketchfabTimeout => sketchfab_timeout st
  | FileDropped => loadUserGLB st
  | FileParsed g => loadUserGLB_onLoad g st
  | FileParseError => loadUserGLB_onError st
  | ResetClicked => resetScene st
  | MaterialClicked t => setMaterial t None st
  | ColorPicked v => color_picker_onChange v st
  | ColorTyped v => color_text_onChange v st
  | KeyDown e => handleKeyPress e st
  | PresetClicked p => setCameraPreset p st
  | ZoomToFitClicked => zoomToFit st
  | AutoRotateChecked b => setAutoRotate b st
  | FullscreenClicked => toggleFullscreen st
  | FullscreenChanged b => handleFullscreenChange b st
  | StatsClicked => set_showStats (negb (showStats st)) st
  | ScreenshotClicked => captureScreenshot st
  | BlobReady o b n => toBlob_callback o b n st
  | WindowResized w h => handleResize w h st
  end.

Definition run (evs : list Event) (st : State) : State := fold_left step evs st.

End Viewer.

(* ================================================================== *)
(** * The state after mount *)
(* ================================================================== *)

Definition light (p : vec3) : Object3D := MkObject p vone (Nd PLight []) [].

(** The first effect has run: scene, camera, renderer of the window's size,
    composer (or not), controls, four lights, and the two requests for the
    studio environment (the mount effect and the lighting effect). *)
Definition mounted (w h : Z) (composer : bool) : State :=
  MkState true true gold "#FFD700" front studio false false None false
    (Some (MkScene [0; 1; 2; 3]%nat None 0x111111%Z))
    (Some (MkCamera (fin3 0 2 (Qc_of_Z 5))))
    (Some (MkRenderer w h))
    (Some (MkControls vzero (Fin 2) (Fin (Qc_of_Z 10)) true))
    None None None composer
    [light vzero; light (fin3 (Qc_of_Z 5) (Qc_of_Z 10) (Qc_of_Z 7));
     light (fin3 (- Qc_of_Z 5) (Qc_of_Z 5) (Qc_of_Z 5));
     light (fin3 (Qc_of_Z 5) (Qc_of_Z 3) (- Qc_of_Z 5))]
    false
    [Fetch (CONFIG_hdriUrls studio); Fetch (CONFIG_hdriUrls studio)].

(** A stand-in for [OrbitControls.update] that moves nothing, to run the
    handlers on concrete states. *)
Definition orbit_still (controls : Controls) (camera : Camera) : Controls * Camera :=
  (controls, camera).

(* ================================================================== *)
(** * Predicates used in the statements *)
(* ================================================================== *)

Definition is_light (o : Object3D) : bool :=
  match root o with
  | Nd PLight _ => true
  | _ => false
  end.

Definition is_model (st : State) (id : nat) : bool :=
  match objects st !! id with
  | Some o => negb (is_light o)
  | None => false
  end.

(** The children of the scene that are models, in scene order. *)
Definition attached_models (st : State) : list nat :=
  match sceneRef st with
  | None => []
  | Some scene => filter (λ id, is_model st id) (children scene)
  end.

(** The material that mesh slot [i] of object [id] names. *)
Definition material_of (st : State) (id i : nat) : option Material :=
  o ← objects st !! id; mats o !! i.

(** The world-space bounding box of object [id]. *)
Definition box_of (st : State) (id : nat) : option Box3 :=
  setFromObject <$> objects st !! id.

(** [P] holds of the standard material in slot [i]. *)
Definition done_at (P : Material → Prop) (i : nat) (ms : list Material) : Prop :=
  ∃ m, ms !! i = Some m ∧ P m ∧ isStandard (mat_class m) = true.

(** The part of the state that decides which model is shown. *)
Definition refs_of (st : State) : option Scene * option nat * option nat :=
  (sceneRef st, currentModelRef st, defaultRingRef st).

(** There is a scene, no object is attached twice, and the ring ref is
    set only once a current model is. *)
Definition scene_wf (st : State) : Prop :=
  ∃ scene, sceneRef st = Some scene ∧ NoDup (children scene) ∧
           (is_Some (defaultRingRef st) → is_Some (currentModelRef st)).

(** The events that may change the scene's children or the two model refs. *)
Definition structural (ev : Event) : bool :=
  match ev with
  | EnvLoaded _ | EnvError | UrlLoaded _ | FileParsed _ | ResetClicked => true
  | _ => false
  end.

(* ================================================================== *)
(** * A sample asset *)
(* ================================================================== *)

Definition box_mesh (lo hi : point) (slot : MatSlot) : Node :=
  Nd (PMesh (MkMesh (MkGeometry 8%N None [lo; hi]) slot false false)) [].

Definition sample_material (name : string) (metal : Qc) : Material :=
  MkMaterial MeshStandardMaterial name (setHex (Some 0x808080%Z)) metal
             (dec 5 10) 1 None false.

(** A band spanning (0,0,0)-(4,2,2) with a material named after a metal,
    and a stone inside that span with a material that is not metal-like. *)
Definition sample_gltf : GLTF :=
  MkGLTF
    [box_mesh (0, 0, 0) (Qc_of_Z 4, 2, 2) (OneMaterial 0);
     box_mesh (1, 1, 1) (2, 2, 2) (OneMaterial 1)]
    [sample_material "Gold band" 1; sample_material "Gem" 0].

(** An asset whose only mesh is a single point: its box has size 0. *)
Definition point_gltf : GLTF :=
  MkGLTF [box_mesh (1, 1, 1) (1, 1, 1) NoMaterial] [].

(* ================================================================== *)
(** * Extents of finite point sets *)
(* ================================================================== *)

Definition pmin (a b : point) : point :=
  (Qcmin a.1.1 b.1.1, Qcmin a.1.2 b.1.2, Qcmin a.2 b.2).
Definition pmax (a b : point) : point :=
  (Qcmax a.1.1 b.1.1, Qcmax a.1.2 b.1.2, Qcmax a.2 b.2).

(** Componentwise minimum and maximum of [p :: ps]. *)
Definition extent (p : point) (ps : list point) : point * point :=
  fold_left (λ e q, (pmin e.1 q, pmax e.2 q)) ps (p, p).

(** The map a root at [t] with uniform scale [s] applies to a corner. *)
Definition affine (t : point) (s : Qc) (q : point) : point :=
  (t.1.1 + s * q.1.1, t.1.2 + s * q.1.2, t.2 + s * q.2).

Definition ple (a b : point) : Prop :=
  a.1.1 ≤ b.1.1 ∧ a.1.2 ≤ b.1.2 ∧ a.2 ≤ b.2.

(** Every child of the scene beyond the four lights of mount (objects 0
    to 3) is the ring or the current model. *)
Definition models_known (st : State) : Prop :=
  ∀ scene id, sceneRef st = Some scene → id ∈ children scene →
    (id < 4)%nat ∨ Some id = defaultRingRef st ∨ Some id = currentModelRef st.

(** [o'] has the nodes of [o] and materials of the same classes. *)
Definition same_shape (o o' : Object3D) : Prop :=
  root o' = root o ∧ mat_class <$> mats o' = mat_class <$> mats o.

(** Every object of [os] is still in [os'], under its index and with its
    shape. *)
Definition store_kept (os os' : list Object3D) : Prop :=
  ∀ id o, os !! id = Some o → ∃ o', os' !! id = Some o' ∧ same_shape o o'.

(** What [defaultRingRef] names is a ring as [createDefaultRing] builds it,
    up to the fields of its two materials. *)
Definition ring_stored (st : State) : Prop :=
  ∀ r, defaultRingRef st = Some r →
    ∃ ring, objects st !! r = Some ring ∧ same_shape (new_ring None) ring.

(* ================================================================== *)
(** * [getThemeColor] *)
(* ================================================================== *)

(** The table [colors] of [getThemeColor]. *)
Definition theme_colors (material : MaterialType) : string :=
  match material with
  | gold => "#FFD700"
  | rosegold => "#B76E79"
  | platinum => "#E5E4E2"
  | custom => "#FFD700"
  end.

(** [customColor] is the optional second argument; an empty table entry
    would fall back to gold. *)
Definition getThemeColor (material : MaterialType) (customColor : option string)
    : string :=
  if bool_decide (material = custom) && truthy_string customColor
  then default "" customColor
  else match theme_colors material with
       | EmptyString => theme_colors gold
       | c => c
       end.

(** [themeColor], as the component computes it at each render. *)
Definition themeColor (st : State) : string :=
  getThemeColor (currentMaterial st) (Some (customColor st)).

(* ================================================================== *)
(** * The animation loop *)
(* ================================================================== *)

(** [frameCountRef], [lastFrameTimeRef] and the [fps] cell. *)
Record FrameClock : Type := MkClock {
  frameCount : N;
  lastFrameTime : Qc;
  fps : N
}.

(** The FPS block of [animate]; [currentTime] is in milliseconds. *)
Definition tick (currentTime : Qc) (k : FrameClock) : FrameClock :=
  let n := (frameCount k + 1)%N in
  if decide (Qc_of_Z 1000 ≤ currentTime - lastFrameTime k)
  then MkClock 0 currentTime n
  else MkClock n (lastFrameTime k) (fps k).

(** The block run once per frame, over the time stamps of successive
    frames. *)
Definition ticks (times : list Qc) (k : FrameClock) : FrameClock :=
  fold_left (λ acc t, tick t acc) times k.

(* ================================================================== *)
(** * More predicates used in the statements *)
(* ================================================================== *)

(** The custom colour, the environment map of the viewer and the
    environment of the scene. *)
Definition side_of (st : State) : string * option Texture * option (option Texture) :=
  (customColor st, envMapRef st, environment <$> sceneRef st).

(** The events that set the custom colour or install an environment. *)
Definition colouring (ev : Event) : bool :=
  match ev with
  | ColorPicked _ | ColorTyped _ | EnvLoaded _ => true
  | _ => false
  end.

(** Every character is a hexadecimal digit. *)
Definition all_hex (s : string) : bool :=
  forallb is_hex_digit (list_ascii_of_string s).

(** A colour input element only reports values of the form [#rrggbb]. *)
Definition picker_ok (ev : Event) : Prop :=
  match ev with
  | ColorPicked v => is_hex_color v = true
  | _ => True
  end.

(* ================================================================== *)
(** * Where the arithmetic of a load is exact *)
(* ================================================================== *)

(** [2^e] for an integer [e]. *)
Definition pow2 (e : Z) : Qc :=
  if decide (0 ≤ e)%Z then Qc_of_Z (2 ^ e) else / Qc_of_Z (2 ^ (- e)).

(** The finite values of a JavaScript number (IEEE 754 binary64):
    [m * 2^e] with [|m| < 2^53] and [-1074 ≤ e ≤ 971]. *)
Definition binary64 (q : Qc) : Prop :=
  ∃ m e : Z, (Z.abs m < 2 ^ 53)%Z ∧ (-1074 ≤ e ≤ 971)%Z ∧ q = Qc_of_Z m * pow2 e.

(** The result of an operation is finite and a binary64 value: the
    operation of the code gives it without rounding. *)
Definition exact (x : num) : Prop :=
  match x with
  | Fin q => binary64 q
  | NonFinite => False
  end.

Definition coords (v : vec3) : list num := [vx v; vy v; vz v].

(** The products and sums behind the world-space corners of [o]
    ([Vector3.applyMatrix4] with the matrix of a root that is moved and
    scaled), with the corners themselves. *)
Definition world_arithmetic (o : Object3D) : list num :=
  concat (map (λ p, coords (vec_of_point p) ++
                    coords (vmulv (scale o) (vec_of_point p)) ++
                    coords (world o p))
              (all_corners (root o))).

(** The sums, halves and differences behind [getCenter] and [getSize]. *)
Definition box_arithmetic (b : Box3) : list num :=
  match b with
  | EmptyBox => []
  | Box lo hi => coords (vadd lo hi) ++ coords (getCenter b) ++ coords (getSize b)
  end.

(** Every result of the arithmetic that a load does on [gltf.scene]: the
    box, its centre and size, the new position, the quotient
    [2 / maxDim]; and of the arithmetic that measures the box of the model
    once it is placed.  Both loaders reach the same position, one as
    [0 - c], the other as [0 + (0 - c)]. *)
Definition load_arithmetic (g : GLTF) : list num :=
  let model := gltf_scene g in
  let box := setFromObject model in
  let center := getCenter box in
  let scaleFactor := ndiv (Fin 2) (max3 (getSize box)) in
  let placed :=
    set_scale (Vec3 scaleFactor scaleFactor scaleFactor)
      (set_position (vsub (position model) center) model) in
  world_arithmetic model ++ box_arithmetic box ++
  coords (position placed) ++ [scaleFactor] ++
  world_arithmetic placed ++ box_arithmetic (setFromObject placed).

(** An asset whose boxes span 0.125 to 0.75 on every axis. *)
Definition fifth_gltf : GLTF :=
  MkGLTF [box_mesh (dec 125 1000, dec 125 1000, dec 125 1000)
                   (dec 75 100, dec 75 100, dec 75 100) NoMaterial] [].

(* ================================================================== *)
(** * Properties *)
(* ================================================================== *)

(* ================================================================== *)
(** * Keyboard shortcuts (C10) *)
(* ================================================================== *)

(** C10.  A key pressed while the target of the event is an input element
    leaves the whole state as it was: auto-rotate, fullscreen, statistics
    and camera preset keep their values and no screenshot is started. *)
Theorem handleKeyPress_input_ignored upd (e : KeyboardEvent) (st : State) :
  target_is_input e = true → handleKeyPress upd e st = st.
Proof. intros Hin. unfold handleKeyPress. by rewrite Hin. Qed.

Lemma handleKeyPress_input_ignored_witness :
  handleKeyPress orbit_still (MkKey true "r") (mounted 800 600 true)
  = mounted 800 600 true.
Proof. apply (handleKeyPress_input_ignored orbit_still (MkKey true "r")). reflexivity. Defined.

(** Outside an input the same key does toggle auto-rotate. *)
Example handleKeyPress_r_toggles :
  autoRotate (handleKeyPress orbit_still (MkKey false "R") (mounted 800 600 true)) = false.
Proof. reflexivity. Qed.

(* ================================================================== *)
(** * Zoom to fit (C9) *)
(* ================================================================== *)

Lemma zoomToFit_as_front_effect upd (st : State) :
  zoomToFit upd st
  = set_cameraPreset (cameraPreset st)
      (cameraPreset_effect upd (set_cameraPreset front st)).
Proof.
  unfold zoomToFit, cameraPreset_effect, finish_update. destruct st as [].
  cbn. repeat case_match; simplify_eq; reflexivity.
Qed.

(** With the three refs in place, the framing of zoom to fit, written out. *)
Lemma zoomToFit_framing upd (st : State) camera controls id model :
  cameraRef st = Some camera → controlsRef st = Some controls →
  currentModelRef st = Some id → objects st !! id = Some model →
  let box := setFromObject model in
  let center := getCenter box in
  let maxDim := max3 (getSize box) in
  zoomToFit upd st
  = finish_update upd
      (MkControls center (minDistance controls) (maxDistance controls)
                  (ctl_autoRotate controls))
      (MkCamera (Vec3 (vx center) (vy center)
                      (nadd (vz center) (nmul maxDim (Fin (dec 15 10))))))
      st.
Proof. intros Hc Hk Hm Ho. unfold zoomToFit. by rewrite Hm, Hc, Hk, Ho. Qed.

(** C9.  With a camera, controls and a current model in place, zoom to fit
    hands to the controls' update the target [center] and the camera at
    [center + 1.5 * maxDim] along z, where [center] and [maxDim] are the
    centre and the largest dimension of the box of the model, and stores
    what the update returns.  The effect of the "front" preset on the same
    state stores the same camera and the same controls.  Without one of
    the three refs both leave camera and controls alone.  Zoom to fit
    keeps the recorded preset in every case. *)
Theorem zoomToFit_frames_like_front upd (st : State) :
  (∀ camera controls id model,
     cameraRef st = Some camera → controlsRef st = Some controls →
     currentModelRef st = Some id → objects st !! id = Some model →
     let box := setFromObject model in
     let center := getCenter box in
     let maxDim := max3 (getSize box) in
     let position :=
       Vec3 (vx center) (vy center) (nadd (vz center) (nmul maxDim (Fin (dec 15 10)))) in
     let aimed :=
       MkControls center (minDistance controls) (maxDistance controls)
                  (ctl_autoRotate controls) in
     cameraRef (zoomToFit upd st) = Some (upd aimed (MkCamera position)).2 ∧
     controlsRef (zoomToFit upd st) = Some (upd aimed (MkCamera position)).1 ∧
     cameraRef (cameraPreset_effect upd (set_cameraPreset front st))
       = Some (upd aimed (MkCamera position)).2 ∧
     controlsRef (cameraPreset_effect upd (set_cameraPreset front st))
       = Some (upd aimed (MkCamera position)).1) ∧
  cameraRef (zoomToFit upd st)
    = cameraRef (cameraPreset_effect upd (set_cameraPreset front st)) ∧
  controlsRef (zoomToFit upd st)
    = controlsRef (cameraPreset_effect upd (set_cameraPreset front st)) ∧
  cameraPreset (zoomToFit upd st) = cameraPreset st.
Proof.
  split.
  - intros camera controls id model Hc Hk Hm Ho. cbv zeta.
    rewrite (zoomToFit_framing upd st camera controls id model Hc Hk Hm Ho).
    unfold cameraPreset_effect, finish_update. destruct st as []. cbn in *.
    rewrite Hc, Hk, Hm, Ho.
    by destruct (upd _ _) as [controls' camera'].
  - rewrite zoomToFit_as_front_effect.
    by destruct (cameraPreset_effect upd (set_cameraPreset front st)).
Qed.

Lemma zoomToFit_frames_like_front_witness :
  let st := loadEnvironment_onError (mounted 800 600 true) in
  cameraRef (zoomToFit orbit_still st)
    = Some (MkCamera (fin3 0 (dec 1 10) (dec 375 100))) ∧
  target <$> controlsRef (zoomToFit orbit_still st) = Some (fin3 0 (dec 1 10) 0) ∧
  cameraRef (cameraPreset_effect orbit_still (set_cameraPreset front st))
    = Some (MkCamera (fin3 0 (dec 1 10) (dec 375 100))).
Proof.
  cbv zeta.
  destruct (zoomToFit_frames_like_front orbit_still
              (loadEnvironment_onError (mounted 800 600 true))) as [H _].
  destruct (H (MkCamera (fin3 0 2 (Qc_of_Z 5)))
              (MkControls vzero (Fin 2) (Fin (Qc_of_Z 10)) true)
              4%nat (new_ring None) eq_refl eq_refl eq_refl eq_refl)
    as (H1 & H2 & H3 & _).
  rewrite H1, H2, H3. repeat split; compute_done.
Defined.

(** On the procedural ring: centre (0, 0.1, 0), largest dimension 2.5. *)
Example zoomToFit_ring :
  let st := zoomToFit orbit_still
              (loadEnvironment_onError (mounted 800 600 true)) in
  cameraRef st = Some (MkCamera (fin3 0 (dec 1 10) (dec 375 100))) ∧
  target <$> controlsRef st = Some (fin3 0 (dec 1 10) 0).
Proof. split; compute_done. Qed.

(* ================================================================== *)
(** * The custom colour field (C8) *)
(* ================================================================== *)

Lemma setMaterial_currentMaterial t c st :
  currentMaterial (setMaterial t c st) = t.
Proof.
  unfold setMaterial. repeat case_match; reflexivity.
Qed.

Lemma setMaterial_customColor t c st :
  customColor (setMaterial t c st)
  = if bool_decide (t = custom) && truthy_string c then default "" c
    else customColor st.
Proof.
  unfold setMaterial. repeat case_match; reflexivity.
Qed.

(** C8.  "#1A2B3C" passes the pattern and becomes the custom colour: the
    state records it, the selection is [custom], the colour applied is
    0x1A2B3C (shown on the ring right after its creation); "1A2B3C" and
    "#1A2B3" do not pass and leave the state, with its custom colour, as
    it was. *)
Theorem color_text_examples (st : State) :
  (customColor (color_text_onChange "#1A2B3C" st) = "#1A2B3C" ∧
   currentMaterial (color_text_onChange "#1A2B3C" st) = custom ∧
   settings_of custom (Some "#1A2B3C")
     = Some (MkSettings (Some 0x1A2B3C%Z) (dec 9 10) (dec 3 10) (dec 8 10)) ∧
   color <$> material_of
               (color_text_onChange "#1A2B3C"
                  (loadEnvironment_onError (mounted 800 600 true))) 4 0
     = Some (MkColor 0x1A 0x2B 0x3C)) ∧
  color_text_onChange "1A2B3C" st = st ∧
  color_text_onChange "#1A2B3" st = st.
Proof.
  split; [|split; reflexivity].
  change (color_text_onChange "#1A2B3C" st)
    with (setMaterial custom (Some "#1A2B3C") (set_customColor "#1A2B3C" st)).
  rewrite setMaterial_customColor, setMaterial_currentMaterial.
  repeat split.
Qed.

(* ================================================================== *)
(** * Screenshot capture (C7) *)
(* ================================================================== *)

Lemma toBlob_callback_restores original blob now (st : State) :
  is_Some (rendererRef st) →
  rendererRef (toBlob_callback original blob now st) = Some original ∧
  isCapturing (toBlob_callback original blob now st) = false.
Proof.
  intros [r Hr]. unfold toBlob_callback.
  destruct blob; cbn; rewrite Hr; done.
Qed.

(** One capture on its own, with nothing between the capture and its
    callback.  With the renderer at [w] x [h]: the capture renders once, at
    [2w] x [2h]; when the callback of [toBlob] runs, with a blob or
    without, the renderer is back at [w] x [h] and the capturing flag is
    down; a blob is downloaded under a name carrying [Date.now()], and
    without a blob nothing is downloaded. *)
Lemma captureScreenshot_restores_size (st : State) (r : Renderer) scene camera
    (blob : bool) (now : N) :
  rendererRef st = Some r → sceneRef st = Some scene → cameraRef st = Some camera →
  let st1 := captureScreenshot st in
  let st2 := toBlob_callback r blob now st1 in
  rendererRef st1 = Some (MkRenderer (width r * 2) (height r * 2)) ∧
  effects st1 = effects st ++ [Render (composerRef st) (width r * 2) (height r * 2)] ∧
  rendererRef st2 = rendererRef st ∧
  isCapturing st2 = false ∧
  effects st2
  = effects st1 ++
    (if blob then [Download ("jewellery-" +:+ pretty now +:+ ".png")] else []).
Proof.
  intros Hr Hs Hc. cbn zeta.
  unfold captureScreenshot, render_once. rewrite Hr. cbn.
  destruct (composerRef st) eqn:Hcomp; cbn; rewrite ?Hs, ?Hc; cbn;
    (split; [done|]); (split; [done|]);
    unfold toBlob_callback; destruct blob; cbn; rewrite ?app_nil_r; done.
Qed.

Lemma captureScreenshot_restores_size_witness :
  let st := mounted 800 600 false in
  let st1 := captureScreenshot st in
  let st2 := toBlob_callback (MkRenderer 800 600) false 1700000000000 st1 in
  rendererRef st1 = Some (MkRenderer 1600 1200) ∧
  effects st1 = effects st ++ [Render false 1600 1200] ∧
  rendererRef st2 = rendererRef st ∧
  isCapturing st2 = false ∧
  effects st2 = effects st1 ++ [].
Proof.
  exact (captureScreenshot_restores_size (mounted 800 600 false)
           (MkRenderer 800 600) (MkScene [0; 1; 2; 3]%nat None 0x111111%Z)
           (MkCamera (fin3 0 2 (Qc_of_Z 5))) false 1700000000000%N
           eq_refl eq_refl eq_refl).
Defined.

(** C7 fails when captures overlap.  The key [c] starts a capture whether
    or not one is pending; only the button is disabled while capturing.
    With the renderer at [w] x [h], two presses before the first callback
    of [toBlob] make the second capture read [2w] x [2h] as its original
    size.  After both callbacks, run in the order of their captures and
    each with the size its capture read, with blobs or without, the
    renderer is left at [2w] x [2h]: the render size has changed for good. *)
Theorem key_captures_overlap upd (st : State) (r : Renderer)
    (blob1 blob2 : bool) (now1 now2 : N) :
  rendererRef st = Some r → (0 < width r)%Z →
  let c := KeyDown (MkKey false "c") in
  let doubled := MkRenderer (width r * 2) (height r * 2) in
  let st1 := run upd [c] st in
  let st2 := run upd [c; c] st in
  let st4 := run upd [c; c; BlobReady r blob1 now1; BlobReady doubled blob2 now2] st in
  rendererRef st1 = Some doubled ∧
  rendererRef st2 = Some (MkRenderer (width doubled * 2) (height doubled * 2)) ∧
  rendererRef st4 = Some doubled ∧
  isCapturing st4 = false ∧
  rendererRef st4 ≠ rendererRef st.
Proof.
  intros Hr Hw. cbv zeta. cbn [run fold_left step].
  assert (Hcap : ∀ s q, rendererRef s = Some q →
            rendererRef (handleKeyPress upd (MkKey false "c") s)
            = Some (MkRenderer (width q * 2) (height q * 2))).
  { intros s q Hq.
    change (handleKeyPress upd (MkKey false "c") s) with (captureScreenshot s).
    unfold captureScreenshot, render_once. rewrite Hq. cbn.
    repeat case_match; reflexivity. }
  pose proof (Hcap st r Hr) as H1.
  pose proof (Hcap _ _ H1) as H2.
  split; [exact H1|]. split; [exact H2|].
  destruct (toBlob_callback_restores r blob1 now1 _ (mk_is_Some _ _ H2)) as [H3 _].
  destruct (toBlob_callback_restores (MkRenderer (width r * 2) (height r * 2))
              blob2 now2 _ (mk_is_Some _ _ H3)) as [H4 H5].
  split; [exact H4|]. split; [exact H5|].
  rewrite H4, Hr. intros [= Heq]. destruct r as [w h]. cbn in *. injection Heq as Hw' _. lia.
Qed.

Lemma key_captures_overlap_witness :
  let st := mounted 800 600 true in
  let c := KeyDown (MkKey false "c") in
  let r := MkRenderer 800 600 in
  let doubled := MkRenderer (width r * 2) (height r * 2) in
  let st1 := run orbit_still [c] st in
  let st2 := run orbit_still [c; c] st in
  let st4 := run orbit_still
               [c; c; BlobReady r true 1700000000000;
                BlobReady doubled true 1700000000001] st in
  rendererRef st1 = Some doubled ∧
  rendererRef st2 = Some (MkRenderer (width doubled * 2) (height doubled * 2)) ∧
  rendererRef st4 = Some doubled ∧
  isCapturing st4 = false ∧
  rendererRef st4 ≠ rendererRef st.
Proof.
  apply (key_captures_overlap orbit_still (mounted 800 600 true) (MkRenderer 800 600)
           true true 1700000000000 1700000000001); [reflexivity | reflexivity].
Defined.

Example screenshot_file_name :
  effects (toBlob_callback (MkRenderer 800 600) true 1700000000000
             (set_effects [] (mounted 800 600 true)))
  = [Download "jewellery-1700000000000.png"].
Proof. reflexivity. Qed.

(* ================================================================== *)
(** * Traversals over materials *)
(* ================================================================== *)

Lemma scene_traverse_length f ids (os : list Object3D) :
  length (scene_traverse f ids os) = length os.
Proof.
  revert os. induction ids as [|id ids IH]; intros os; cbn; [done|].
  unfold scene_traverse in IH. rewrite IH. apply length_alter.
Qed.

Section Visited.

(** A callback [f] that keeps the class of a material, makes [P] true on
    every standard material and keeps [P] true once it is. *)
Variable f : Material → Material.
Variable P : Material → Prop.
Hypothesis f_class : ∀ m, mat_class (f m) = mat_class m.
Hypothesis f_sets : ∀ m, P (f m).

Lemma on_standard_sets i (ms : list Material) m :
  ms !! i = Some m → isStandard (mat_class m) = true →
  done_at P i (on_standard f (OneMaterial i) ms).
Proof.
  intros Hm Hstd. exists (f m). cbn.
  rewrite list_lookup_alter_eq, Hm. cbn. rewrite Hstd.
  split; [done|]. split; [apply f_sets|by rewrite f_class].
Qed.

Lemma on_standard_keeps i slot (ms : list Material) :
  done_at P i ms → done_at P i (on_standard f slot ms).
Proof.
  intros (m & Hm & HP & Hstd). destruct slot as [|j|l]; cbn; try by exists m.
  destruct (decide (j = i)) as [->|Hne].
  - exists (f m). rewrite list_lookup_alter_eq, Hm. cbn. rewrite Hstd.
    split; [done|]. split; [apply f_sets|by rewrite f_class].
  - exists m. by rewrite list_lookup_alter_ne.
Qed.

Lemma fold_on_standard_keeps i (l : list MeshData) (ms : list Material) :
  done_at P i ms →
  done_at P i (fold_left (λ acc m, on_standard f (material m) acc) l ms).
Proof.
  revert ms. induction l as [|x l IH]; intros ms H; cbn; [done|].
  apply IH. by apply on_standard_keeps.
Qed.

Lemma on_standard_lookup_standard slot (ms : list Material) i m :
  ms !! i = Some m → isStandard (mat_class m) = true →
  ∃ m', on_standard f slot ms !! i = Some m' ∧ isStandard (mat_class m') = true.
Proof.
  intros Hm Hstd. destruct slot as [|j|l]; cbn; try by exists m.
  destruct (decide (j = i)) as [->|Hne].
  - exists (f m). rewrite list_lookup_alter_eq, Hm. cbn. rewrite Hstd.
    by rewrite f_class.
  - exists m. by rewrite list_lookup_alter_ne.
Qed.

(** Every standard material that some mesh of the traversal names has [P]
    afterwards. *)
Lemma traverse_materials_visited (n : Node) (ms : list Material) mesh i m :
  mesh ∈ meshes n → material mesh = OneMaterial i →
  ms !! i = Some m → isStandard (mat_class m) = true →
  done_at P i (traverse_materials f n ms).
Proof.
  unfold traverse_materials. generalize (meshes n). intros l. revert ms m.
  induction l as [|x l IH]; intros ms m Hin Hslot Hm Hstd.
  - by apply elem_of_nil in Hin.
  - cbn. apply elem_of_cons in Hin as [<-|Hin].
    + apply fold_on_standard_keeps. rewrite Hslot. by eapply on_standard_sets.
    + destruct (on_standard_lookup_standard (material x) ms i m Hm Hstd)
        as (m' & Hm' & Hstd').
      by eapply IH.
Qed.

End Visited.

(* ================================================================== *)
(** * Environment load (C6) *)
(* ================================================================== *)

Lemma elem_of_scene_add id scene : id ∈ children (scene_add id scene).
Proof. cbn. apply elem_of_app. right. by apply list_elem_of_singleton. Qed.

(** C6.  When the environment request completes at a moment when no model
    has been created: on success the texture is the scene's environment
    and the environment map of the viewer, on failure the error is logged
    and the environment stays what it was; in both outcomes the default
    ring is constructed as a new object, attached to the scene, recorded
    as the current model and as the default ring, and the loading flag is
    cleared. *)
Theorem loadEnvironment_completion_creates_ring (st : State) scene loaded :
  sceneRef st = Some scene → currentModelRef st = None →
  let id := length (objects st) in
  let texture := MkTexture (tex_source loaded) EquirectangularReflectionMapping in
  let ok := loadEnvironment_onLoad loaded st in
  let ko := loadEnvironment_onError st in
  (environment <$> sceneRef ok = Some (Some texture) ∧
   envMapRef ok = Some texture ∧
   currentModelRef ok = Some id ∧ defaultRingRef ok = Some id ∧
   objects ok !! id = Some (new_ring (Some texture)) ∧
   (∃ scene', sceneRef ok = Some scene' ∧ id ∈ children scene') ∧
   loading ok = false) ∧
  (environment <$> sceneRef ko = Some (environment scene) ∧
   envMapRef ko = envMapRef st ∧
   effects ko = effects st ++ [Console "Error loading HDRI:"] ∧
   currentModelRef ko = Some id ∧ defaultRingRef ko = Some id ∧
   objects ko !! id = Some (new_ring (envMapRef st)) ∧
   (∃ scene', sceneRef ko = Some scene' ∧ id ∈ children scene') ∧
   loading ko = false).
Proof.
  intros Hs Hc. cbn zeta. split.
  - unfold loadEnvironment_onLoad. rewrite Hs. cbn. rewrite Hc. cbn.
    rewrite scene_traverse_length.
    repeat split; try done.
    + rewrite lookup_app_r by (by rewrite scene_traverse_length).
      by rewrite scene_traverse_length, Nat.sub_diag.
    + eexists. split; [done|]. apply elem_of_scene_add.
  - unfold loadEnvironment_onError. rewrite Hs. cbn. rewrite Hc. cbn. rewrite Hs.
    repeat split; try done.
    + rewrite lookup_app_r by done. by rewrite Nat.sub_diag.
    + eexists. split; [done|]. apply elem_of_scene_add.
Qed.

Lemma loadEnvironment_completion_creates_ring_witness :
  let st := mounted 800 600 true in
  let texture := MkTexture "studio.hdr" EquirectangularReflectionMapping in
  let ok := loadEnvironment_onLoad (MkTexture "studio.hdr" UVMapping) st in
  let ko := loadEnvironment_onError st in
  (environment <$> sceneRef ok = Some (Some texture) ∧
   envMapRef ok = Some texture ∧
   currentModelRef ok = Some 4%nat ∧ defaultRingRef ok = Some 4%nat ∧
   objects ok !! 4%nat = Some (new_ring (Some texture)) ∧
   (∃ scene', sceneRef ok = Some scene' ∧ 4%nat ∈ children scene') ∧
   loading ok = false) ∧
  (environment <$> sceneRef ko = Some None ∧
   envMapRef ko = None ∧
   effects ko = effects st ++ [Console "Error loading HDRI:"] ∧
   currentModelRef ko = Some 4%nat ∧ defaultRingRef ko = Some 4%nat ∧
   objects ko !! 4%nat = Some (new_ring None) ∧
   (∃ scene', sceneRef ko = Some scene' ∧ 4%nat ∈ children scene') ∧
   loading ko = false).
Proof.
  exact (loadEnvironment_completion_creates_ring (mounted 800 600 true)
           (MkScene [0; 1; 2; 3]%nat None 0x111111%Z)
           (MkTexture "studio.hdr" UVMapping) eq_refl eq_refl).
Defined.

(** With a model in place a completion creates nothing. *)
Lemma loadEnvironment_completion_keeps_model (st : State) loaded :
  is_Some (currentModelRef st) →
  currentModelRef (loadEnvironment_onLoad loaded st) = currentModelRef st ∧
  length (objects (loadEnvironment_onLoad loaded st)) = length (objects st) ∧
  currentModelRef (loadEnvironment_onError st) = currentModelRef st ∧
  objects (loadEnvironment_onError st) = objects st.
Proof.
  intros [c Hc]. unfold loadEnvironment_onLoad, loadEnvironment_onError.
  destruct (sceneRef st) as [scene|]; [|done]. cbn. rewrite Hc. cbn.
  by rewrite scene_traverse_length.
Qed.

(** On success every standard material of a mesh of an attached object
    carries the texture and is marked for an update. *)
Lemma loadEnvironment_onLoad_propagates (st : State) scene loaded c id o mesh i m :
  sceneRef st = Some scene → currentModelRef st = Some c →
  id ∈ children scene → objects st !! id = Some o →
  mesh ∈ meshes (root o) → material mesh = OneMaterial i →
  mats o !! i = Some m → isStandard (mat_class m) = true →
  ∃ m', material_of (loadEnvironment_onLoad loaded st) id i = Some m' ∧
        envMap m' = Some (MkTexture (tex_source loaded) EquirectangularReflectionMapping) ∧
        needsUpdate m' = true.
Proof.
  intros Hs Hc Hid Ho Hmesh Hslot Hm Hstd.
  unfold loadEnvironment_onLoad. rewrite Hs. cbn. rewrite Hc. cbn.
  set (tex := MkTexture _ _). unfold material_of. cbn.
  set (P := λ o' : Object3D, root o' = root o ∧
    done_at (λ m', envMap m' = Some tex ∧ needsUpdate m' = true) i (mats o')).
  assert (Hkeep : ∀ ids os o', os !! id = Some o' → P o' →
            ∃ o'', scene_traverse (env_callback tex) ids os !! id = Some o'' ∧ P o'').
  { induction ids as [|j ids IH]; intros os o' Ho' HP; cbn; [by eauto|].
    destruct (decide (j = id)) as [->|Hne].
    - eapply IH.
      + rewrite list_lookup_alter_eq, Ho'. done.
      + destruct HP as [Hr HP]. split; [done|]. cbn. unfold traverse_materials.
        by apply fold_on_standard_keeps.
    - eapply IH; [|done]. by rewrite list_lookup_alter_ne. }
  assert (Hset : ∀ ids os o', id ∈ ids → os !! id = Some o' → root o' = root o →
            (∃ m0, mats o' !! i = Some m0 ∧ isStandard (mat_class m0) = true) →
            ∃ o'', scene_traverse (env_callback tex) ids os !! id = Some o'' ∧ P o'').
  { induction ids as [|j ids IH]; intros os o' Hin Ho' Hr (m0 & Hm0 & Hs0); cbn.
    { by apply elem_of_nil in Hin. }
    destruct (decide (j = id)) as [->|Hne].
    - eapply Hkeep.
      + rewrite list_lookup_alter_eq, Ho'. done.
      + split; [done|]. cbn. rewrite Hr.
        eapply (traverse_materials_visited (env_callback tex)); eauto.
    - apply elem_of_cons in Hin as [->|Hin]; [done|].
      eapply IH; eauto. by rewrite list_lookup_alter_ne. }
  destruct (Hset (children scene) (objects st) o Hid Ho eq_refl) as (o'' & Ho'' & _ & HP).
  { eauto. }
  rewrite Ho''. cbn. destruct HP as (m' & Hm' & [He Hn] & _). eauto.
Qed.

(* ================================================================== *)
(** * Handlers that leave the scene and the model refs alone *)
(* ================================================================== *)

Ltac frame :=
  intros; unfold refs_of;
  repeat first
    [ progress cbn
    | match goal with
      | |- context [match ?x with _ => _ end] => destruct x eqn:?
      end ];
  first [reflexivity | congruence].

Lemma setMaterial_refs t c st : refs_of (setMaterial t c st) = refs_of st.
Proof. unfold setMaterial. frame. Qed.

Lemma captureScreenshot_refs st : refs_of (captureScreenshot st) = refs_of st.
Proof. unfold captureScreenshot, render_once. frame. Qed.

Lemma toBlob_callback_refs o b n st : refs_of (toBlob_callback o b n st) = refs_of st.
Proof. unfold toBlob_callback. frame. Qed.

Lemma setAutoRotate_refs b st : refs_of (setAutoRotate b st) = refs_of st.
Proof. unfold setAutoRotate. frame. Qed.

Lemma toggleFullscreen_refs st : refs_of (toggleFullscreen st) = refs_of st.
Proof. unfold toggleFullscreen. frame. Qed.

Lemma setLightingPreset_refs p st : refs_of (setLightingPreset p st) = refs_of st.
Proof. unfold setLightingPreset, loadEnvironment. frame. Qed.

Section Frames.

Variable upd : Controls → Camera → Controls * Camera.

Lemma finish_update_refs c cam st : refs_of (finish_update upd c cam st) = refs_of st.
Proof. unfold finish_update. by destruct (upd c cam). Qed.

Lemma cameraPreset_effect_refs st : refs_of (cameraPreset_effect upd st) = refs_of st.
Proof.
  unfold cameraPreset_effect.
  repeat case_match; try reflexivity; rewrite finish_update_refs;
    unfold refs_of; cbn; congruence.
Qed.

Lemma setCameraPreset_refs p st : refs_of (setCameraPreset upd p st) = refs_of st.
Proof.
  unfold setCameraPreset. case_decide; [done|].
  by rewrite cameraPreset_effect_refs.
Qed.

Lemma setCameraPreset_objects p st : objects (setCameraPreset upd p st) = objects st.
Proof.
  unfold setCameraPreset, cameraPreset_effect, finish_update.
  repeat case_match; reflexivity.
Qed.

Lemma zoomToFit_refs st : refs_of (zoomToFit upd st) = refs_of st.
Proof.
  unfold zoomToFit. repeat case_match; try reflexivity; apply finish_update_refs.
Qed.

Lemma handleKeyPress_refs e st : refs_of (handleKeyPress upd e st) = refs_of st.
Proof.
  unfold handleKeyPress.
  repeat case_match;
    auto using setAutoRotate_refs, toggleFullscreen_refs,
      captureScreenshot_refs, setCameraPreset_refs.
Qed.

Lemma step_refs st ev :
  structural ev = false → refs_of (step upd st ev) = refs_of st.
Proof.
  destruct ev; intros [=]; cbn [step];
    try (by auto using setMaterial_refs, captureScreenshot_refs,
           toBlob_callback_refs, setAutoRotate_refs, toggleFullscreen_refs,
           setLightingPreset_refs, setCameraPreset_refs, zoomToFit_refs,
           handleKeyPress_refs).
  - unfold loadModelFromURL. frame.
  - unfold loadUserGLB. frame.
  - unfold color_picker_onChange. by rewrite setMaterial_refs.
  - unfold color_text_onChange. destruct (is_hex_color value); [|done].
    by rewrite setMaterial_refs.
Qed.

End Frames.

(* ================================================================== *)
(** * The scene's children *)
(* ================================================================== *)

Lemma elem_of_remove_first x y (l : list nat) : x ∈ remove_first y l → x ∈ l.
Proof.
  induction l as [|z l IH]; cbn; [done|]. case_decide.
  - intros. by apply elem_of_cons; right.
  - rewrite !elem_of_cons. intros [->|Hin]; [by left|right; by apply IH].
Qed.

Lemma NoDup_remove_first y (l : list nat) : NoDup l → NoDup (remove_first y l).
Proof.
  induction 1 as [|z l Hz Hl IH]; cbn; [constructor|]. case_decide; [done|].
  constructor; [|done]. intros Hin. by apply Hz, (elem_of_remove_first _ y).
Qed.

Lemma not_elem_of_remove_first y (l : list nat) : NoDup l → y ∉ remove_first y l.
Proof.
  induction 1 as [|z l Hz Hl IH]; cbn; [apply not_elem_of_nil|].
  case_decide; [by subst|]. rewrite not_elem_of_cons. done.
Qed.

Lemma NoDup_scene_add id scene :
  NoDup (children scene) → NoDup (children (scene_add id scene)).
Proof.
  intros Hnd. cbn. apply NoDup_app. split; [by apply NoDup_remove_first|].
  split; [|apply NoDup_singleton].
  intros x Hx ->%list_elem_of_singleton. by apply (not_elem_of_remove_first id (children scene)).
Qed.

Lemma NoDup_scene_remove id scene :
  NoDup (children scene) → NoDup (children (scene_remove id scene)).
Proof. apply NoDup_remove_first. Qed.

Lemma not_elem_of_scene_add_remove m r scene :
  NoDup (children scene) → m ≠ r →
  m ∉ children (scene_add r (scene_remove m scene)).
Proof.
  intros Hnd Hne. cbn. rewrite not_elem_of_app. split.
  - intros Hin%elem_of_remove_first. by apply (not_elem_of_remove_first m (children scene)).
  - by intros ?%list_elem_of_singleton.
Qed.

(* ================================================================== *)
(** * Invariants of the transition system *)
(* ================================================================== *)

Lemma scene_wf_refs st st' : refs_of st' = refs_of st → scene_wf st → scene_wf st'.
Proof.
  unfold refs_of, scene_wf. intros [= Hs Hc Hd]. by rewrite Hs, Hc, Hd.
Qed.

Lemma set_loading_wf b st : scene_wf st → scene_wf (set_loading b st).
Proof. apply scene_wf_refs. reflexivity. Qed.

Lemma createDefaultRing_wf st :
  scene_wf st → scene_wf (createDefaultRing st).
Proof.
  intros (scene & Hs & Hnd & _). exists (scene_add (length (objects st)) scene).
  unfold createDefaultRing. cbn. rewrite Hs. cbn.
  split; [done|]. split; [by apply NoDup_scene_add|]. by eauto.
Qed.

Lemma loadEnvironment_onLoad_wf t st :
  scene_wf st → scene_wf (loadEnvironment_onLoad t st).
Proof.
  intros Hwf. pose proof Hwf as (scene & Hs & Hnd & Himp).
  unfold loadEnvironment_onLoad. rewrite Hs. cbn.
  destruct (currentModelRef st) eqn:Hc.
  - eexists. cbn. split; [done|]. cbn. rewrite Hc. by eauto.
  - apply set_loading_wf, createDefaultRing_wf.
    eexists. cbn. split; [reflexivity|]. cbn. split; [exact Hnd|].
    rewrite Hc. exact Himp.
Qed.

Lemma loadEnvironment_onError_wf st :
  scene_wf st → scene_wf (loadEnvironment_onError st).
Proof.
  intros Hwf. pose proof Hwf as (scene & Hs & Hnd & Himp).
  unfold loadEnvironment_onError. rewrite Hs. cbn.
  destruct (currentModelRef st) eqn:Hc.
  - exists scene. cbn. rewrite Hc. done.
  - apply set_loading_wf, createDefaultRing_wf.
    exists scene. cbn. split; [exact Hs|]. split; [exact Hnd|].
    rewrite Hc. exact Himp.
Qed.

Lemma resetScene_wf st : scene_wf st → scene_wf (resetScene st).
Proof.
  intros Hwf. pose proof Hwf as (scene & Hs & Hnd & Himp).
  unfold resetScene. rewrite Hs.
  destruct (currentModelRef st) as [cur|] eqn:Hc; [|done].
  case_decide; [done|].
  destruct (defaultRingRef st) as [ring|] eqn:Hd.
  - eexists. cbn. rewrite Hd. split; [done|].
    split; [|by eauto]. by apply NoDup_scene_add, NoDup_scene_remove.
  - eexists. cbn. rewrite Hd, Hc. split; [done|].
    split; [|by eauto]. by apply NoDup_scene_remove.
Qed.

Section Invariants.

Variable upd : Controls → Camera → Controls * Camera.

Lemma loadModelFromURL_onLoad_refs g st scene :
  sceneRef st = Some scene →
  refs_of (loadModelFromURL_onLoad upd g st)
  = (Some (scene_add (length (objects st))
             (match currentModelRef st with
              | Some cur => if decide (Some cur = defaultRingRef st) then scene
                            else scene_remove cur scene
              | None => scene
              end)),
     Some (length (objects st)), defaultRingRef st).
Proof.
  intros Hs. unfold loadModelFromURL_onLoad. rewrite Hs.
  by rewrite setCameraPreset_refs.
Qed.

Lemma loadUserGLB_onLoad_refs g st scene :
  sceneRef st = Some scene →
  refs_of (loadUserGLB_onLoad upd g st)
  = (Some (scene_add (length (objects st))
             (match currentModelRef st with
              | Some cur => scene_remove cur scene
              | None => scene
              end)),
     Some (length (objects st)), defaultRingRef st).
Proof.
  intros Hs. unfold loadUserGLB_onLoad. rewrite Hs.
  by rewrite setCameraPreset_refs.
Qed.

Lemma step_wf st ev : scene_wf st → scene_wf (step upd st ev).
Proof.
  intros Hwf. destruct (structural ev) eqn:Hev.
  - pose proof Hwf as (scene & Hs & Hnd & Himp).
    destruct ev; try discriminate; cbn [step].
    + by apply loadEnvironment_onLoad_wf.
    + by apply loadEnvironment_onError_wf.
    + pose proof (loadModelFromURL_onLoad_refs gltf st scene Hs) as [= H1 H2 H3].
      eexists. split; [done|]. rewrite H2. split; [|by eauto].
      apply NoDup_scene_add. repeat case_match; auto using NoDup_scene_remove.
    + pose proof (loadUserGLB_onLoad_refs gltf st scene Hs) as [= H1 H2 H3].
      eexists. split; [done|]. rewrite H2. split; [|by eauto].
      apply NoDup_scene_add. repeat case_match; auto using NoDup_scene_remove.
    + by apply resetScene_wf.
  - eapply scene_wf_refs; [|done]. by apply step_refs.
Qed.

Lemma run_wf evs st : scene_wf st → scene_wf (run upd evs st).
Proof.
  revert st. induction evs as [|ev evs IH]; intros st Hwf; cbn; [done|].
  apply IH. by apply step_wf.
Qed.

Lemma mounted_wf w h c : scene_wf (mounted w h c).
Proof.
  eexists. split; [reflexivity|]. split.
  - cbn. repeat constructor; rewrite ?not_elem_of_cons; repeat split;
      try apply not_elem_of_nil; lia.
  - intros [? [=]].
Qed.

(** Once the ring exists, the ref to it never changes. *)
Lemma step_keeps_ring st ev r :
  scene_wf st → defaultRingRef st = Some r → defaultRingRef (step upd st ev) = Some r.
Proof.
  intros (scene & Hs & Hnd & Himp) Hd.
  destruct (Himp (ltac:(by rewrite Hd))) as [c Hc].
  destruct (structural ev) eqn:Hev.
  - destruct ev; try discriminate; cbn [step].
    + unfold loadEnvironment_onLoad. rewrite Hs. cbn. by rewrite Hc.
    + unfold loadEnvironment_onError. rewrite Hs. cbn. by rewrite Hc.
    + by pose proof (loadModelFromURL_onLoad_refs gltf st scene Hs) as [= H1 H2 ->].
    + by pose proof (loadUserGLB_onLoad_refs gltf st scene Hs) as [= H1 H2 ->].
    + unfold resetScene. rewrite Hs, Hc, Hd. by case_decide.
  - by pose proof (step_refs upd st ev Hev) as [= _ _ ->].
Qed.

Lemma run_keeps_ring evs st r :
  scene_wf st → defaultRingRef st = Some r → defaultRingRef (run upd evs st) = Some r.
Proof.
  revert st. induction evs as [|ev evs IH]; intros st Hwf Hd; cbn; [done|].
  apply IH; [by apply step_wf|by apply step_keeps_ring].
Qed.

(** No event but the creation of the ring stores a new ring, and the store
    only grows: an object keeps its index. *)
Lemma resetScene_objects st : objects (resetScene st) = objects st.
Proof. unfold resetScene. repeat case_match; reflexivity. Qed.

(* ================================================================== *)
(** * Reset (C5) *)
(* ================================================================== *)

(** C5.  Take any run from mount after which the ring exists as object [r],
    continue with any events, and suppose the current model is then an
    external model [m].  [resetScene] makes [r] the current model again,
    the very object of before (the ring ref never moved and the store is
    untouched: nothing is built), attached to the scene, and [m] is no
    longer attached. *)
Theorem resetScene_restores_ring w h c (before after : list Event) (r m : nat) :
  let st0 := run upd before (mounted w h c) in
  let st := run upd after st0 in
  defaultRingRef st0 = Some r →
  currentModelRef st = Some m → m ≠ r →
  currentModelRef (resetScene st) = Some r ∧
  defaultRingRef (resetScene st) = Some r ∧
  objects (resetScene st) = objects st ∧
  ∃ scene, sceneRef (resetScene st) = Some scene ∧
           r ∈ children scene ∧ m ∉ children scene.
Proof.
  intros st0 st Hd0 Hc Hne.
  assert (Hwf0 : scene_wf st0) by apply run_wf, mounted_wf.
  assert (Hwf : scene_wf st) by by apply run_wf.
  assert (Hd : defaultRingRef st = Some r) by by apply run_keeps_ring.
  destruct Hwf as (scene & Hs & Hnd & _).
  rewrite resetScene_objects.
  unfold resetScene. rewrite Hs, Hc, Hd.
  rewrite decide_False by congruence. cbn.
  repeat split; try done.
  eexists. split; [done|]. split.
  - apply elem_of_scene_add.
  - by apply not_elem_of_scene_add_remove.
Qed.

End Invariants.

Lemma resetScene_restores_ring_witness :
  let st0 := run orbit_still [EnvError] (mounted 800 600 true) in
  let st := run orbit_still [FileParsed sample_gltf] st0 in
  currentModelRef (resetScene st) = Some 4%nat ∧
  defaultRingRef (resetScene st) = Some 4%nat ∧
  objects (resetScene st) = objects st ∧
  ∃ scene, sceneRef (resetScene st) = Some scene ∧
           4%nat ∈ children scene ∧ 5%nat ∉ children scene.
Proof.
  apply (resetScene_restores_ring orbit_still 800 600 true
           [EnvError] [FileParsed sample_gltf] 4 5);
    [vm_compute; reflexivity | vm_compute; reflexivity | lia].
Defined.

(** After a file load and a reset only the ring is attached. *)
Example reset_after_file_load :
  attached_models
    (run orbit_still [EnvError; FileParsed sample_gltf; ResetClicked]
         (mounted 800 600 true)) = [4%nat].
Proof. vm_compute. reflexivity. Qed.


(* ================================================================== *)
(** * The callback of the GLB branch *)
(* ================================================================== *)

Lemma glb_callback_class settings env m :
  mat_class (glb_callback settings env m) = mat_class m.
Proof. unfold glb_callback. repeat case_match; reflexivity. Qed.

Lemma glb_callback_fields settings env m :
  let m' := glb_callback settings env m in
  color m' = setHex (s_color settings) ∧
  metalness m' = s_metalness settings ∧
  roughness m' = s_roughness settings.
Proof. unfold glb_callback. repeat case_match; done. Qed.

Lemma glb_callback_envMapIntensity settings env m :
  envMapIntensity (glb_callback settings env m)
  = if is_metal_like m then s_envMapIntensity settings else envMapIntensity m.
Proof. unfold glb_callback. repeat case_match; reflexivity. Qed.

(* ================================================================== *)
(** * The object store only grows *)
(* ================================================================== *)

Lemma same_shape_refl o : same_shape o o.
Proof. by split. Qed.

Lemma same_shape_trans o1 o2 o3 :
  same_shape o1 o2 → same_shape o2 o3 → same_shape o1 o3.
Proof. intros [H1 H2] [H3 H4]. split; congruence. Qed.

Lemma store_kept_refl os : store_kept os os.
Proof. intros id o H. exists o. split; [done|apply same_shape_refl]. Qed.

Lemma store_kept_trans os1 os2 os3 :
  store_kept os1 os2 → store_kept os2 os3 → store_kept os1 os3.
Proof.
  intros H12 H23 id o H. destruct (H12 id o H) as (o2 & H2 & Hs2).
  destruct (H23 id o2 H2) as (o3 & H3 & Hs3). exists o3.
  split; [done|by eapply same_shape_trans].
Qed.

Lemma store_kept_app os extra : store_kept os (os ++ extra).
Proof.
  intros id o H. exists o. split; [|apply same_shape_refl].
  rewrite lookup_app_l; [done|]. by eapply lookup_lt_Some.
Qed.

Lemma store_kept_alter (f : Object3D → Object3D) i os :
  (∀ o, same_shape o (f o)) → store_kept os (alter f i os).
Proof.
  intros Hf id o H. destruct (decide (i = id)) as [->|Hne].
  - exists (f o). by rewrite list_lookup_alter_eq, H.
  - exists o. rewrite list_lookup_alter_ne by done. split; [done|apply same_shape_refl].
Qed.

Lemma fmap_alter_same {A B} (h : A → B) (g : A → A) i (l : list A) :
  (∀ x, h (g x) = h x) → h <$> alter g i l = h <$> l.
Proof.
  intros Hg. apply list_eq. intros j. rewrite !list_lookup_fmap.
  destruct (decide (i = j)) as [->|Hne].
  - rewrite list_lookup_alter_eq. destruct (l !! j); cbn; [by rewrite Hg|done].
  - by rewrite list_lookup_alter_ne.
Qed.

Lemma traverse_materials_classes f (n : Node) (ms : list Material) :
  (∀ m, mat_class (f m) = mat_class m) →
  mat_class <$> traverse_materials f n ms = mat_class <$> ms.
Proof.
  intros Hf. unfold traverse_materials. generalize (meshes n). intros l.
  revert ms. induction l as [|x l IH]; intros ms; cbn; [done|].
  rewrite IH. destruct (material x); cbn; try done.
  apply fmap_alter_same. intros m. by destruct (isStandard (mat_class m)).
Qed.

Lemma set_mats_traverse_shape f (o : Object3D) :
  (∀ m, mat_class (f m) = mat_class m) →
  same_shape o (set_mats (traverse_materials f (root o) (mats o)) o).
Proof. intros Hf. split; [done|]. cbn. by apply traverse_materials_classes. Qed.

Lemma scene_traverse_kept f ids os :
  (∀ m, mat_class (f m) = mat_class m) →
  store_kept os (scene_traverse f ids os).
Proof.
  intros Hf. revert os. induction ids as [|id ids IH]; intros os; cbn.
  { apply store_kept_refl. }
  eapply store_kept_trans; [|apply IH].
  apply store_kept_alter. intros o. by apply set_mats_traverse_shape.
Qed.

Lemma setMaterial_kept t c st : store_kept (objects st) (objects (setMaterial t c st)).
Proof.
  unfold setMaterial.
  destruct (bool_decide (t = custom) && truthy_string c);
    (destruct (settings_of t c) as [settings|]; [|apply store_kept_refl]);
    cbn [currentModelRef set_customColor set_currentMaterial];
    (destruct (currentModelRef st) as [model|]; [|apply store_kept_refl]);
    case_decide; cbn; apply store_kept_alter; intros o;
    try (apply set_mats_traverse_shape, glb_callback_class);
    unfold ring_branch; destruct (root o) as [[| |m] ?];
    try apply same_shape_refl;
    (split; [done|]); cbn; destruct (material m); cbn; try done;
    apply fmap_alter_same; intros m'; by destruct (isStandard (mat_class m')).
Qed.

Lemma loadEnvironment_onLoad_objects t st :
  objects (loadEnvironment_onLoad t st)
  = match sceneRef st with
    | None => objects st
    | Some scene =>
        let texture := MkTexture (tex_source t) EquirectangularReflectionMapping in
        let os := scene_traverse (env_callback texture) (children scene) (objects st) in
        match currentModelRef st with
        | None => os ++ [new_ring (Some texture)]
        | Some _ => os
        end
    end.
Proof.
  unfold loadEnvironment_onLoad. destruct (sceneRef st); [|done]. cbn.
  by destruct (currentModelRef st).
Qed.

Lemma loadEnvironment_onError_objects st :
  objects (loadEnvironment_onError st)
  = match sceneRef st, currentModelRef st with
    | Some _, None => objects st ++ [new_ring (envMapRef st)]
    | _, _ => objects st
    end.
Proof.
  unfold loadEnvironment_onError. destruct (sceneRef st); [|done]. cbn.
  by destruct (currentModelRef st).
Qed.

Lemma captureScreenshot_objects st : objects (captureScreenshot st) = objects st.
Proof. unfold captureScreenshot, render_once. repeat case_match; reflexivity. Qed.

Lemma setAutoRotate_objects b st : objects (setAutoRotate b st) = objects st.
Proof. unfold setAutoRotate. by case_decide. Qed.

Lemma toggleFullscreen_objects st : objects (toggleFullscreen st) = objects st.
Proof. unfold toggleFullscreen. by case_match. Qed.

Section Store.

Variable upd : Controls → Camera → Controls * Camera.

Lemma zoomToFit_objects st : objects (zoomToFit upd st) = objects st.
Proof. unfold zoomToFit, finish_update. repeat case_match; reflexivity. Qed.

Lemma handleKeyPress_objects e st : objects (handleKeyPress upd e st) = objects st.
Proof.
  unfold handleKeyPress.
  repeat case_match;
    auto using setAutoRotate_objects, toggleFullscreen_objects,
      captureScreenshot_objects, setCameraPreset_objects.
Qed.

Lemma step_kept st ev : store_kept (objects st) (objects (step upd st ev)).
Proof.
  destruct ev; cbn [step];
    try (by rewrite ?setCameraPreset_objects, ?zoomToFit_objects,
              ?handleKeyPress_objects, ?captureScreenshot_objects,
              ?setAutoRotate_objects, ?toggleFullscreen_objects;
            apply store_kept_refl);
    try apply setMaterial_kept.
  - rewrite loadEnvironment_onLoad_objects.
    destruct (sceneRef st); [|apply store_kept_refl]. cbn zeta.
    destruct (currentModelRef st).
    + by apply (scene_traverse_kept (env_callback _)).
    + eapply store_kept_trans; [|apply store_kept_app].
      by apply (scene_traverse_kept (env_callback _)).
  - rewrite loadEnvironment_onError_objects.
    destruct (sceneRef st), (currentModelRef st);
      try apply store_kept_refl; apply store_kept_app.
  - unfold setLightingPreset, loadEnvironment.
    repeat case_match; apply store_kept_refl.
  - unfold loadModelFromURL. repeat case_match; apply store_kept_refl.
  - unfold loadModelFromURL_onLoad. destruct (sceneRef st); [|apply store_kept_refl].
    rewrite setCameraPreset_objects. apply store_kept_app.
  - unfold loadUserGLB. case_match; apply store_kept_refl.
  - unfold loadUserGLB_onLoad. destruct (sceneRef st); [|apply store_kept_refl].
    rewrite setCameraPreset_objects. apply store_kept_app.
  - rewrite resetScene_objects. apply store_kept_refl.
  - unfold color_picker_onChange.
    eapply store_kept_trans; [|apply setMaterial_kept]. apply store_kept_refl.
  - unfold color_text_onChange. case_match; [|apply store_kept_refl].
    eapply store_kept_trans; [|apply setMaterial_kept]. apply store_kept_refl.
  - unfold toBlob_callback. case_match; apply store_kept_refl.
Qed.

Lemma step_ring_stored st ev :
  scene_wf st → ring_stored st → ring_stored (step upd st ev).
Proof.
  intros Hwf Hring r Hr.
  destruct (defaultRingRef st) as [r0|] eqn:Hd.
  - rewrite (step_keeps_ring upd st ev r0 Hwf Hd) in Hr. injection Hr as <-.
    destruct (Hring r0 Hd) as (ring & Ho & Hsh).
    destruct (step_kept st ev r0 ring Ho) as (ring' & Ho' & Hsh').
    exists ring'. split; [done|by eapply same_shape_trans].
  - destruct Hwf as (scene & Hs & Hnd & _).
    destruct (structural ev) eqn:Hev.
    2:{ pose proof (step_refs upd st ev Hev) as [= _ _ H3]. congruence. }
    destruct ev; try discriminate; cbn [step] in *.
    + rewrite loadEnvironment_onLoad_objects. revert Hr.
      unfold loadEnvironment_onLoad. rewrite Hs. cbn.
      destruct (currentModelRef st) eqn:Hc; cbn; [congruence|].
      intros [= <-]. eexists.
      rewrite lookup_app_r by done. rewrite Nat.sub_diag. split; [reflexivity|].
      by split.
    + rewrite loadEnvironment_onError_objects. revert Hr.
      unfold loadEnvironment_onError. rewrite Hs. cbn.
      destruct (currentModelRef st) eqn:Hc; cbn; [congruence|].
      intros [= <-]. eexists.
      rewrite lookup_app_r by done. rewrite Nat.sub_diag. split; [reflexivity|].
      by split.
    + pose proof (loadModelFromURL_onLoad_refs upd gltf st scene Hs) as [= _ _ H3].
      congruence.
    + pose proof (loadUserGLB_onLoad_refs upd gltf st scene Hs) as [= _ _ H3].
      congruence.
    + revert Hr. unfold resetScene. rewrite Hs, Hd.
      repeat case_match; cbn; congruence.
Qed.

Lemma run_ring_stored w h c evs : ring_stored (run upd evs (mounted w h c)).
Proof.
  assert (H : ∀ st, scene_wf st → ring_stored st → ring_stored (run upd evs st)).
  { induction evs as [|ev evs IH]; intros st Hwf Hk; cbn; [done|].
    apply IH; [by apply step_wf|by apply step_ring_stored]. }
  apply H; [apply mounted_wf|]. intros r [=].
Qed.

End Store.

(* ================================================================== *)
(** * Applying a material (C4, C3) *)
(* ================================================================== *)

Lemma getHex_setHex_config t cfg :
  CONFIG_materials t = Some cfg → Some (getHex (setHex (s_color cfg))) = s_color cfg.
Proof. destruct t; intros [= <-]; reflexivity. Qed.

Lemma settings_of_metal t cfg :
  CONFIG_materials t = Some cfg → settings_of t None = Some cfg.
Proof. destruct t; intros [= <-]; reflexivity. Qed.

(** The procedural branch on a state whose current model is a ring. *)
Lemma ring_branch_exact (st : State) (t : MaterialType) (cfg : Settings)
    (r : nat) (ring : Object3D) (m : Material) :
  CONFIG_materials t = Some cfg →
  currentModelRef st = Some r → defaultRingRef st = Some r →
  objects st !! r = Some ring → root ring = root (new_ring None) →
  mats ring !! 0%nat = Some m → isStandard (mat_class m) = true →
  ∃ m', material_of (setMaterial t None st) r 0 = Some m' ∧
        color m' = setHex (s_color cfg) ∧
        Some (getHex (color m')) = s_color cfg ∧
        metalness m' = s_metalness cfg ∧
        roughness m' = s_roughness cfg ∧
        envMapIntensity m' = s_envMapIntensity cfg ∧
        material_of (setMaterial t None st) r 1 = material_of st r 1.
Proof.
  intros Hcfg Hcur Hdef Hring Hroot Hm Hstd.
  exists (apply_metal cfg m).
  unfold setMaterial, material_of.
  rewrite (settings_of_metal _ _ Hcfg).
  replace (bool_decide (t = custom) && truthy_string None) with false
    by (by rewrite andb_false_r).
  cbn. rewrite Hcur, Hdef. rewrite decide_True by done. cbn.
  rewrite list_lookup_alter_eq, Hring. cbn.
  unfold ring_branch. rewrite Hroot. cbn.
  rewrite list_lookup_alter_eq, Hm. cbn. rewrite Hstd.
  rewrite list_lookup_alter_ne by done.
  repeat split. cbn. by apply (getHex_setHex_config t).
Qed.

Section Procedural.

Variable upd : Controls → Camera → Controls * Camera.

(** C4.  In every state reached from mount in which the procedural ring is
    the current model, selecting gold, rose gold or platinum leaves the
    ring's own material with exactly the colour, metalness, roughness and
    environment intensity that [CONFIG.materials] lists for that metal; the
    material of the diamond is not touched. *)
Theorem setMaterial_ring_exact w h c (evs : list Event) (t : MaterialType)
    (cfg : Settings) (r : nat) :
  let st := run upd evs (mounted w h c) in
  CONFIG_materials t = Some cfg →
  currentModelRef st = Some r → defaultRingRef st = Some r →
  ∃ m', material_of (setMaterial t None st) r 0 = Some m' ∧
        color m' = setHex (s_color cfg) ∧
        Some (getHex (color m')) = s_color cfg ∧
        metalness m' = s_metalness cfg ∧
        roughness m' = s_roughness cfg ∧
        envMapIntensity m' = s_envMapIntensity cfg ∧
        material_of (setMaterial t None st) r 1 = material_of st r 1.
Proof.
  intros st Hcfg Hcur Hdef.
  destruct (run_ring_stored upd w h c evs r Hdef) as (ring & Ho & Hroot & Hcls).
  assert (Hm : ∃ m, mats ring !! 0%nat = Some m ∧ isStandard (mat_class m) = true).
  { assert (H0 : (mat_class <$> mats ring) !! 0%nat = Some MeshStandardMaterial)
      by (by rewrite Hcls).
    rewrite list_lookup_fmap in H0.
    destruct (mats ring !! 0%nat) as [m|]; [|done].
    exists m. split; [done|]. injection H0 as ->. done. }
  destruct Hm as (m & Hm & Hstd).
  by apply (ring_branch_exact st t cfg r ring m).
Qed.

End Procedural.

Lemma setMaterial_ring_exact_witness :
  let st := run orbit_still [EnvError] (mounted 800 600 true) in
  ∃ m', material_of (setMaterial platinum None st) 4 0 = Some m' ∧
        color m' = setHex (Some 0xffffff%Z) ∧
        Some (getHex (color m')) = Some 0xffffff%Z ∧
        metalness m' = dec 9 10 ∧
        roughness m' = dec 3 10 ∧
        envMapIntensity m' = dec 7 10 ∧
        material_of (setMaterial platinum None st) 4 1 = material_of st 4 1.
Proof.
  exact (setMaterial_ring_exact orbit_still 800 600 true [EnvError] platinum
           (MkSettings (Some 0xffffff%Z) (dec 9 10) (dec 3 10) (dec 7 10)) 4
           eq_refl eq_refl eq_refl).
Defined.

(* ================================================================== *)
(** * The material heuristic on the sample asset (C3) *)
(* ================================================================== *)




(* ================================================================== *)
(** * Which models can be attached *)
(* ================================================================== *)

Section Attached.

Variable upd : Controls → Camera → Controls * Camera.

Lemma models_known_refs st st' :
  refs_of st' = refs_of st → models_known st → models_known st'.
Proof. unfold refs_of, models_known. intros [= -> -> ->]. done. Qed.

Lemma set_loading_known b st : models_known st → models_known (set_loading b st).
Proof. apply models_known_refs. reflexivity. Qed.

Lemma elem_of_scene_add_inv x id scene :
  x ∈ children (scene_add id scene) → x = id ∨ x ∈ children scene.
Proof.
  cbn. rewrite elem_of_app, list_elem_of_singleton.
  intros [?%elem_of_remove_first| ->]; auto.
Qed.

Lemma createDefaultRing_known st :
  scene_wf st → models_known st → currentModelRef st = None →
  models_known (createDefaultRing st).
Proof.
  intros (scene & Hs & Hnd & Himp) Hk Hc sc x.
  unfold createDefaultRing. cbn. rewrite Hs. cbn. intros [= <-] Hx.
  apply elem_of_scene_add_inv in Hx as [->|Hx]; [by auto|].
  destruct (Hk scene x Hs Hx) as [?|[Hd|Hc']]; [by auto| |congruence].
  destruct Himp as [? ?]; [by rewrite <- Hd|congruence].
Qed.

Lemma step_known st ev :
  scene_wf st → models_known st → models_known (step upd st ev).
Proof.
  intros Hwf Hk. destruct (structural ev) eqn:Hev.
  2:{ eapply models_known_refs; [|done]. by apply step_refs. }
  pose proof Hwf as (scene & Hs & Hnd & Himp).
  assert (Hold : ∀ x, x ∈ children scene →
            (x < 4)%nat ∨ Some x = defaultRingRef st ∨ Some x = currentModelRef st)
    by (intros x; apply Hk, Hs).
  assert (Hgone : ∀ x cur, currentModelRef st = Some cur →
            x ∈ remove_first cur (children scene) →
            (x < 4)%nat ∨ Some x = defaultRingRef st).
  { intros x cur Hc Hx. pose proof Hx as Hx'%elem_of_remove_first.
    destruct (Hold x Hx') as [?|[?|Heq]]; auto.
    rewrite Hc in Heq. injection Heq as ->.
    by apply (not_elem_of_remove_first cur (children scene)) in Hx. }
  destruct ev; try discriminate; cbn [step].
  - unfold loadEnvironment_onLoad. rewrite Hs. cbn.
    destruct (currentModelRef st) eqn:Hc.
    + intros sc x. cbn. rewrite Hc. intros [= <-]. cbn. apply Hold.
    + apply set_loading_known, createDefaultRing_known.
      * eexists. cbn. split; [reflexivity|]. cbn. split; [exact Hnd|].
        rewrite Hc. exact Himp.
      * intros sc x. cbn. rewrite Hc. intros [= <-]. cbn. apply Hold.
      * exact Hc.
  - unfold loadEnvironment_onError. rewrite Hs. cbn.
    destruct (currentModelRef st) eqn:Hc.
    + intros sc x. cbn. rewrite Hc, Hs. intros [= <-]. apply Hold.
    + apply set_loading_known, createDefaultRing_known.
      * exists scene. cbn. split; [exact Hs|]. split; [exact Hnd|].
        rewrite Hc. exact Himp.
      * intros sc x. cbn. rewrite Hc, Hs. intros [= <-]. apply Hold.
      * exact Hc.
  - pose proof (loadModelFromURL_onLoad_refs upd gltf st scene Hs) as [= H1 H2 H3].
    intros sc x. rewrite H1, H2, H3. intros [= <-] Hx.
    apply elem_of_scene_add_inv in Hx as [->|Hx]; [by auto|].
    destruct (currentModelRef st) as [cur|] eqn:Hc.
    + case_decide as Hcd.
      * destruct (Hold x Hx) as [?|[?|?]]; auto. right; left. congruence.
      * destruct (Hgone x cur eq_refl Hx); auto.
    + destruct (Hold x Hx) as [?|[?|?]]; auto; congruence.
  - pose proof (loadUserGLB_onLoad_refs upd gltf st scene Hs) as [= H1 H2 H3].
    intros sc x. rewrite H1, H2, H3. intros [= <-] Hx.
    apply elem_of_scene_add_inv in Hx as [->|Hx]; [by auto|].
    destruct (currentModelRef st) as [cur|] eqn:Hc.
    + destruct (Hgone x cur eq_refl Hx); auto.
    + destruct (Hold x Hx) as [?|[?|?]]; auto; congruence.
  - unfold resetScene. rewrite Hs.
    destruct (currentModelRef st) as [cur|] eqn:Hc; [|done].
    case_decide as Hcd; [done|].
    destruct (defaultRingRef st) as [ring|] eqn:Hd.
    + intros sc x. cbn. rewrite Hd. intros [= <-] Hx.
      apply elem_of_scene_add_inv in Hx as [->|Hx]; [by auto|].
      destruct (Hgone x cur eq_refl Hx); auto.
    + intros sc x. cbn. rewrite Hd, Hc. intros [= <-] Hx.
      destruct (Hgone x cur eq_refl Hx); auto.
Qed.

(** In every state reached from mount, whatever is attached beyond the
    lights is the ring or the current model: never more than these two. *)
Lemma run_known w h c evs :
  models_known (run upd evs (mounted w h c)).
Proof.
  assert (H : ∀ st, scene_wf st → models_known st → models_known (run upd evs st)).
  { induction evs as [|ev evs IH]; intros st Hwf Hk; cbn; [done|].
    apply IH; [by apply step_wf|by apply step_known]. }
  apply H; [apply mounted_wf|].
  intros sc x [= <-]. cbn. rewrite !elem_of_cons, elem_of_nil. lia.
Qed.

End Attached.

(* ================================================================== *)
(** * Two models attached at once (C2) *)
(* ================================================================== *)

(** C2 on the shortest run that breaks it: the ring is created, then a
    model arrives from a URL.  The ring stays attached next to the new
    model, so two models are in the scene.  The same asset dropped as a
    file replaces the ring. *)
Theorem url_load_leaves_ring_attached upd w h c texture gltf :
  attached_models (run upd [EnvLoaded texture; UrlLoaded gltf] (mounted w h c))
    = [4%nat; 5%nat] ∧
  attached_models (run upd [EnvLoaded texture; FileParsed gltf] (mounted w h c))
    = [5%nat].
Proof. split; vm_compute; reflexivity. Qed.

(* ================================================================== *)
(** * Normalisation of a loaded model, in general *)
(* ================================================================== *)

Lemma Qcmin_le_l a b : Qcmin a b ≤ a.
Proof.
  unfold Qcmin. case_decide; [done|].
  by apply Qclt_le_weak, Qclt_nge.
Qed.

Lemma Qcmax_ge_l a b : a ≤ Qcmax a b.
Proof. unfold Qcmax. by case_decide. Qed.

Lemma Qcmin_affine t s a b :
  0 ≤ s → Qcmin (t + s * a) (t + s * b) = t + s * Qcmin a b.
Proof.
  intros Hs. unfold Qcmin.
  destruct (decide (a ≤ b)) as [Hab|Hab].
  - rewrite decide_True; [done|].
    by apply Qcplus_le_mono_l, Qcmult_le_mono_nonneg_l.
  - case_decide as H; [|done]. apply (anti_symm (≤)); [done|].
    apply Qcplus_le_mono_l, Qcmult_le_mono_nonneg_l; [done|].
    by apply Qclt_le_weak, Qclt_nge.
Qed.

Lemma Qcmax_affine t s a b :
  0 ≤ s → Qcmax (t + s * a) (t + s * b) = t + s * Qcmax a b.
Proof.
  intros Hs. unfold Qcmax.
  destruct (decide (a ≤ b)) as [Hab|Hab].
  - rewrite decide_True; [done|].
    by apply Qcplus_le_mono_l, Qcmult_le_mono_nonneg_l.
  - case_decide as H; [|done]. apply (anti_symm (≤)); [|done].
    apply Qcplus_le_mono_l, Qcmult_le_mono_nonneg_l; [done|].
    by apply Qclt_le_weak, Qclt_nge.
Qed.

Lemma Qcmax_scale s a b : 0 ≤ s → Qcmax (s * a) (s * b) = s * Qcmax a b.
Proof.
  intros Hs. pose proof (Qcmax_affine 0 s a b Hs) as H.
  by rewrite !Qcplus_0_l in H.
Qed.

Lemma pmin_affine t s a b :
  0 ≤ s → pmin (affine t s a) (affine t s b) = affine t s (pmin a b).
Proof. intros. unfold pmin, affine. cbn. by rewrite !Qcmin_affine. Qed.

Lemma pmax_affine t s a b :
  0 ≤ s → pmax (affine t s a) (affine t s b) = affine t s (pmax a b).
Proof. intros. unfold pmax, affine. cbn. by rewrite !Qcmax_affine. Qed.

Lemma extent_affine t s p ps :
  0 ≤ s →
  extent (affine t s p) (map (affine t s) ps)
  = (affine t s (extent p ps).1, affine t s (extent p ps).2).
Proof.
  intros Hs. unfold extent. generalize p at 2 4 6 as hi. generalize p as lo.
  induction ps as [|q ps IH]; intros lo hi; cbn; [done|].
  rewrite pmin_affine, pmax_affine by done. apply IH.
Qed.

Lemma extent_ordered p ps : ple (extent p ps).1 (extent p ps).2.
Proof.
  unfold extent.
  assert (H : ple p p) by (by unfold ple).
  revert H. generalize p at 2 4 6 as hi. generalize p as lo.
  induction ps as [|q ps IH]; intros lo hi Hle; cbn; [done|].
  apply IH. destruct Hle as (Hx & Hy & Hz). unfold ple, pmin, pmax; cbn.
  repeat split.
  - trans lo.1.1; [apply Qcmin_le_l|]. trans hi.1.1; [done|apply Qcmax_ge_l].
  - trans lo.1.2; [apply Qcmin_le_l|]. trans hi.1.2; [done|apply Qcmax_ge_l].
  - trans lo.2; [apply Qcmin_le_l|]. trans hi.2; [done|apply Qcmax_ge_l].
Qed.

(** The box of finitely placed corners is the extent of the mapped corners. *)
Lemma fold_expandByPoint ps lo hi :
  fold_left expandByPoint (map vec_of_point ps)
            (Box (vec_of_point lo) (vec_of_point hi))
  = Box (vec_of_point (fold_left (λ e q, (pmin e.1 q, pmax e.2 q)) ps (lo, hi)).1)
        (vec_of_point (fold_left (λ e q, (pmin e.1 q, pmax e.2 q)) ps (lo, hi)).2).
Proof.
  revert lo hi. induction ps as [|q ps IH]; intros lo hi; cbn; [done|].
  rewrite <- IH. by destruct lo as [[??]?], hi as [[??]?], q as [[??]?].
Qed.

Lemma world_affine (o : Object3D) t s q :
  position o = vec_of_point t → scale o = fin3 s s s →
  world o q = vec_of_point (affine t s q).
Proof.
  intros Hp Hs. unfold world. rewrite Hp, Hs.
  by destruct t as [[??]?], q as [[??]?].
Qed.

Lemma setFromObject_affine (o : Object3D) t s p ps :
  position o = vec_of_point t → scale o = fin3 s s s → 0 ≤ s →
  all_corners (root o) = p :: ps →
  setFromObject o = Box (vec_of_point (affine t s (extent p ps).1))
                        (vec_of_point (affine t s (extent p ps).2)).
Proof.
  intros Hp Hs Hs0 Hc. unfold setFromObject. rewrite Hc. cbn.
  rewrite (world_affine o t s p Hp Hs).
  rewrite (map_ext (world o) (λ q, vec_of_point (affine t s q)))
    by (intros q; by apply world_affine).
  rewrite <- (map_map (affine t s) vec_of_point).
  rewrite fold_expandByPoint.
  change (fold_left _ _ _) with (extent (affine t s p) (map (affine t s) ps)).
  by rewrite extent_affine.
Qed.

Lemma box_ordered_not_empty lo hi :
  ple lo hi → isEmpty (Box (vec_of_point lo) (vec_of_point hi)) = false.
Proof.
  intros (Hx & Hy & Hz). destruct lo as [[lx ly] lz], hi as [[hx hy] hz]. cbn in *.
  rewrite !bool_decide_eq_false_2; [done|by apply Qcle_not_lt..].
Qed.

Lemma payloads_map_meshes f (n : Node) :
  payloads (map_meshes f n)
  = map (λ p, match p with PMesh m => PMesh (f m) | _ => p end) (payloads n).
Proof.
  revert n. fix IH 1. intros [p cs]. cbn. f_equal.
  induction cs as [|c cs IHcs]; cbn; [done|].
  by rewrite map_app, IH, IHcs.
Qed.

Lemma meshes_map_meshes f (n : Node) : meshes (map_meshes f n) = map f (meshes n).
Proof.
  unfold meshes. rewrite payloads_map_meshes.
  induction (payloads n) as [|[| |m] l IH]; cbn; [done|done|done|].
  by rewrite IH.
Qed.

Lemma all_corners_set_shadows b (n : Node) :
  all_corners (map_meshes (set_shadows b) n) = all_corners n.
Proof.
  unfold all_corners. rewrite meshes_map_meshes, map_map. done.
Qed.

Lemma affine_id q : affine (0, 0, 0) 1 q = q.
Proof.
  destruct q as [[x y] z]. unfold affine. cbn.
  by rewrite !Qcplus_0_l, !Qcmult_1_l.
Qed.

(** The box of a freshly parsed model is the extent of its corners. *)
Lemma setFromObject_gltf_scene (g : GLTF) p ps :
  all_corners (root (gltf_scene g)) = p :: ps →
  setFromObject (gltf_scene g)
  = Box (vec_of_point (extent p ps).1) (vec_of_point (extent p ps).2).
Proof.
  intros Hc.
  rewrite (setFromObject_affine (gltf_scene g) (0, 0, 0) 1 p ps); try done.
  by rewrite !affine_id.
Qed.

Lemma half_is_inverse : dec 5 10 = / 2.
Proof. apply Qc_is_canon. reflexivity. Qed.

(** What a uniform scale [2 / d] about the object's origin does to a box
    that was first moved by minus its centre [c]: the size becomes
    [2 / d] times the old one, the centre becomes [(2 / d - 1) * c]. *)
Lemma normalised_box (o : Object3D) p ps (d : Qc) :
  all_corners (root o) = p :: ps →
  let lo := (extent p ps).1 in
  let hi := (extent p ps).2 in
  let c := ((lo.1.1 + hi.1.1) * dec 5 10, (lo.1.2 + hi.1.2) * dec 5 10,
            (lo.2 + hi.2) * dec 5 10) in
  position o = fin3 (- c.1.1) (- c.1.2) (- c.2) →
  scale o = fin3 (2 / d) (2 / d) (2 / d) →
  d = Qcmax (Qcmax (hi.1.1 - lo.1.1) (hi.1.2 - lo.1.2)) (hi.2 - lo.2) →
  0 < d →
  max3 (getSize (setFromObject o)) = Fin 2 ∧
  getCenter (setFromObject o)
  = fin3 ((2 / d - 1) * c.1.1) ((2 / d - 1) * c.1.2) ((2 / d - 1) * c.2).
Proof.
  intros Hc lo hi c Hp Hs Hd Hpos.
  assert (Hs0 : 0 ≤ 2 / d).
  { apply Qclt_le_weak, Qcmult_pos_pos; [done|by apply Qcinv_pos]. }
  assert (Hd0 : d ≠ 0) by (intros ->; by apply (Qclt_not_eq 0 0)).
  rewrite (setFromObject_affine o (- c.1.1, - c.1.2, - c.2) (2 / d) p ps Hp Hs Hs0 Hc).
  pose proof (extent_ordered p ps) as Hle. fold lo hi in Hle |- *.
  assert (Hle' : ple (affine (- c.1.1, - c.1.2, - c.2) (2 / d) lo)
                     (affine (- c.1.1, - c.1.2, - c.2) (2 / d) hi)).
  { destruct Hle as (Hx & Hy & Hz). unfold ple, affine; cbn.
    repeat split; by apply Qcplus_le_mono_l, Qcmult_le_mono_nonneg_l. }
  unfold getSize, getCenter. rewrite (box_ordered_not_empty _ _ Hle').
  clearbody lo hi. destruct lo as [[lx ly] lz], hi as [[hx hy] hz].
  cbn in *. unfold vsub, vadd, vscale, vlift2, max3. cbn. split.
  - f_equal.
    replace (- ((lx + hx) * dec 5 10) + 2 / d * hx - (- ((lx + hx) * dec 5 10) + 2 / d * lx))
      with (2 / d * (hx - lx)) by ring.
    replace (- ((ly + hy) * dec 5 10) + 2 / d * hy - (- ((ly + hy) * dec 5 10) + 2 / d * ly))
      with (2 / d * (hy - ly)) by ring.
    replace (- ((lz + hz) * dec 5 10) + 2 / d * hz - (- ((lz + hz) * dec 5 10) + 2 / d * lz))
      with (2 / d * (hz - lz)) by ring.
    rewrite !Qcmax_scale by done. rewrite <- Hd. by field.
  - unfold fin3. rewrite half_is_inverse. f_equal; f_equal; by field.
Qed.

Section Loaders.

Variable upd : Controls → Camera → Controls * Camera.

(** The object a successful URL load stores: moved by minus the centre of
    its box, scaled by [2 / maxDim], corners as parsed. *)
Lemma loadModelFromURL_onLoad_object (g : GLTF) (st : State) scene :
  sceneRef st = Some scene →
  let b := setFromObject (gltf_scene g) in
  let s := ndiv (Fin 2) (max3 (getSize b)) in
  ∃ o, objects (loadModelFromURL_onLoad upd g st) !! length (objects st) = Some o ∧
       position o = vsub vzero (getCenter b) ∧
       scale o = Vec3 s s s ∧
       all_corners (root o) = all_corners (root (gltf_scene g)).
Proof.
  intros Hs b s. unfold loadModelFromURL_onLoad. rewrite Hs.
  rewrite setCameraPreset_objects. cbn [objects set_loading set_modelInfo
    set_currentModelRef set_sceneRef set_objects].
  rewrite lookup_app_r by done. rewrite Nat.sub_diag. cbn [lookup list_lookup].
  eexists. split; [reflexivity|].
  destruct (envMapRef st);
    cbn [position scale root mats set_mats set_root set_scale set_position];
    rewrite all_corners_set_shadows; done.
Qed.

(** The same for a dropped file; the move is written as [p + (p - c)] with
    [p] the position of the fresh root. *)
Lemma loadUserGLB_onLoad_object (g : GLTF) (st : State) scene :
  sceneRef st = Some scene →
  let b := setFromObject (gltf_scene g) in
  let s := ndiv (Fin 2) (max3 (getSize b)) in
  ∃ o, objects (loadUserGLB_onLoad upd g st) !! length (objects st) = Some o ∧
       position o = vadd vzero (vsub vzero (getCenter b)) ∧
       scale o = Vec3 s s s ∧
       all_corners (root o) = all_corners (root (gltf_scene g)).
Proof.
  intros Hs b s. unfold loadUserGLB_onLoad. rewrite Hs.
  rewrite setCameraPreset_objects. cbn [objects set_loading set_modelInfo
    set_currentModelRef set_sceneRef set_objects].
  rewrite lookup_app_r by done. rewrite Nat.sub_diag. cbn [lookup list_lookup].
  eexists. split; [reflexivity|].
  destruct (envMapRef st);
    cbn [position scale root mats set_mats set_root set_scale set_position];
    rewrite all_corners_set_shadows; done.
Qed.

(** Both loaders in the exact arithmetic of the embedding, on any asset
    whose box has a positive largest dimension [d] and centre [c]:
    afterwards the largest dimension is 2 and the centre is
    [(2 / d - 1) * c].  The centre is at the origin exactly when [c] is
    the origin or [d = 2]. *)
Lemma load_normalises_rational (g : GLTF) (st st' : State) scene (d : Qc) :
  sceneRef st = Some scene →
  max3 (getSize (setFromObject (gltf_scene g))) = Fin d → 0 < d →
  st' = loadModelFromURL_onLoad upd g st ∨ st' = loadUserGLB_onLoad upd g st →
  max3 <$> (getSize <$> box_of st' (length (objects st))) = Some (Fin 2) ∧
  getCenter <$> box_of st' (length (objects st))
  = Some (vscale (Fin (2 / d - 1)) (getCenter (setFromObject (gltf_scene g)))).
Proof.
  intros Hs Hd Hpos Hst'.
  destruct (all_corners (root (gltf_scene g))) as [|p ps] eqn:Hc.
  { exfalso. unfold setFromObject in Hd. rewrite Hc in Hd.
    cbn in Hd. injection Hd as <-. revert Hpos. unfold Qcmax.
    repeat case_decide; intros Hlt; by apply (Qclt_not_eq _ _ Hlt). }
  pose proof (setFromObject_gltf_scene g p ps Hc) as Hb.
  pose proof (extent_ordered p ps) as Hle.
  assert (Ho : ∃ o, objects st' !! length (objects st) = Some o ∧
                    position o = vsub vzero (getCenter (setFromObject (gltf_scene g))) ∧
                    scale o = Vec3 (Fin (2 / d)) (Fin (2 / d)) (Fin (2 / d)) ∧
                    all_corners (root o) = p :: ps).
  { assert (Hdiv : ndiv (Fin 2) (Fin d) = Fin (2 / d)).
    { unfold ndiv. rewrite decide_False; [done|].
      intros ->. by apply (Qclt_not_eq 0 0). }
    destruct Hst' as [-> | ->].
    - destruct (loadModelFromURL_onLoad_object g st scene Hs) as (o & H1 & H2 & H3 & H4).
      exists o. rewrite Hd, Hdiv in H3. by rewrite <- Hc.
    - destruct (loadUserGLB_onLoad_object g st scene Hs) as (o & H1 & H2 & H3 & H4).
      exists o. rewrite Hd, Hdiv in H3. rewrite <- Hc. repeat split; try done.
      rewrite H2, Hb. unfold getCenter. rewrite (box_ordered_not_empty _ _ Hle).
      destruct (extent p ps) as [[[??]?] [[??]?]]. cbn.
      unfold vadd, vsub, vlift2, vzero, fin3. cbn. by rewrite !Qcplus_0_l. }
  destruct Ho as (o & Ho & Hp & Hsc & Hco).
  unfold box_of. rewrite Ho. cbn -[setFromObject getSize getCenter max3 vscale].
  assert (Hcen : getCenter (setFromObject (gltf_scene g))
            = fin3 (((extent p ps).1.1.1 + (extent p ps).2.1.1) * dec 5 10)
                   (((extent p ps).1.1.2 + (extent p ps).2.1.2) * dec 5 10)
                   (((extent p ps).1.2 + (extent p ps).2.2) * dec 5 10)).
  { rewrite Hb. unfold getCenter. rewrite (box_ordered_not_empty _ _ Hle).
    by destruct (extent p ps) as [[[??]?] [[??]?]]. }
  assert (Hsz : d = Qcmax (Qcmax ((extent p ps).2.1.1 - (extent p ps).1.1.1)
                                 ((extent p ps).2.1.2 - (extent p ps).1.1.2))
                          ((extent p ps).2.2 - (extent p ps).1.2)).
  { rewrite Hb in Hd. unfold getSize in Hd.
    rewrite (box_ordered_not_empty _ _ Hle) in Hd.
    destruct (extent p ps) as [[[??]?] [[??]?]]. by injection Hd as <-. }
  rewrite Hcen in Hp |- *.
  destruct (normalised_box o p ps d Hco) as [Hsize Hcentre]; try done.
  - rewrite Hp. unfold vsub, vlift2, vzero, fin3. cbn.
    f_equal; f_equal; ring.
  - rewrite Hsize, Hcentre. split; [done|]. f_equal.
    unfold vscale, fin3. cbn. f_equal; f_equal; ring.
Qed.

(** Both loaders, on any asset whose box has a positive largest dimension
    [d] and centre [c], and on which no operation of the load or of the
    measurement afterwards rounds (every result listed by
    [load_arithmetic] is a binary64 value): afterwards the largest
    dimension is exactly 2 and the centre is [(2 / d - 1) * c].  Where
    the code rounds, its doubles differ from the rationals computed here
    and the size is 2 only up to rounding. *)
Theorem load_normalises (g : GLTF) (st st' : State) scene (d : Qc) :
  sceneRef st = Some scene →
  max3 (getSize (setFromObject (gltf_scene g))) = Fin d → 0 < d →
  Forall exact (load_arithmetic g) →
  st' = loadModelFromURL_onLoad upd g st ∨ st' = loadUserGLB_onLoad upd g st →
  max3 <$> (getSize <$> box_of st' (length (objects st))) = Some (Fin 2) ∧
  getCenter <$> box_of st' (length (objects st))
  = Some (vscale (Fin (2 / d - 1)) (getCenter (setFromObject (gltf_scene g)))).
Proof.
  intros Hs Hd Hpos _ Hst'. by apply (load_normalises_rational g st st' scene d).
Qed.

End Loaders.

(* ================================================================== *)
(** * Binary64 values *)
(* ================================================================== *)

Lemma Qc_of_Z_pow2_neq0 (k : Z) : (0 ≤ k)%Z → Qc_of_Z (2 ^ k) ≠ 0.
Proof.
  intros Hk H0. rewrite <- Z2Qc_inj_0 in H0. apply Z2Qc_inj in H0.
  assert (0 < 2 ^ k)%Z by (apply Z.pow_pos_nonneg; lia). lia.
Qed.

Lemma binary64_shift (q : Qc) (k m : Z) :
  (0 ≤ k ≤ 1074)%Z → (Z.abs m < 2 ^ 53)%Z →
  q * Qc_of_Z (2 ^ k) = Qc_of_Z m → binary64 q.
Proof.
  intros Hk Hm Hq. destruct (decide (k = 0)%Z) as [->|Hne].
  - exists m, 0%Z. split; [done|]. split; [lia|].
    unfold pow2. rewrite decide_True by lia.
    rewrite Z.pow_0_r, Z2Qc_inj_1, Qcmult_1_r in *. done.
  - exists m, (- k)%Z. split; [done|]. split; [lia|].
    unfold pow2. rewrite decide_False by lia. rewrite Z.opp_involutive.
    rewrite <- Hq, <- Qcmult_assoc, Qcmult_inv_r, Qcmult_1_r; [done|].
    apply Qc_of_Z_pow2_neq0. lia.
Qed.

Ltac binary64_at k :=
  lazymatch goal with
  | |- binary64 ?q =>
      let m := eval vm_compute in (Qnum (this (q * Qc_of_Z (2 ^ k)))) in
      apply (binary64_shift q k m); [lia | reflexivity | compute_done]
  end.

Ltac binary64_dyadic :=
  first [ binary64_at 0%Z | binary64_at 1%Z | binary64_at 2%Z | binary64_at 3%Z
        | binary64_at 4%Z ].

Lemma load_normalises_witness :
  let st := loadEnvironment_onError (mounted 800 600 true) in
  let st' := loadModelFromURL_onLoad orbit_still sample_gltf st in
  max3 <$> (getSize <$> box_of st' (length (objects st))) = Some (Fin 2) ∧
  getCenter <$> box_of st' (length (objects st))
  = Some (vscale (Fin (2 / Qc_of_Z 4 - 1)) (getCenter (setFromObject (gltf_scene sample_gltf)))).
Proof.
  apply (load_normalises orbit_still sample_gltf _ _
           (MkScene [0; 1; 2; 3; 4]%nat None 0x111111%Z) (Qc_of_Z 4));
    [vm_compute; reflexivity | compute_done | compute_done | | by left].
  vm_compute load_arithmetic.
  repeat (apply Forall_cons; split; [cbn [exact]; binary64_dyadic|]).
  apply Forall_nil_2.
Defined.

Lemma fifths_times_5 (n : Z) : Q2Qc (n # 5) * Qc_of_Z 5 = Qc_of_Z n.
Proof.
  apply Qc_is_canon. cbn [this Qcmult Q2Qc Qc_of_Z]. rewrite !Qred_correct.
  unfold Qeq. cbn. lia.
Qed.

(** [n / 5] is no binary64 value unless 5 divides [n]. *)
Lemma not_binary64_fifths (n : Z) : (n mod 5 ≠ 0)%Z → ¬ binary64 (Q2Qc (n # 5)).
Proof.
  intros Hn (m & e & _ & _ & Heq). apply Hn. apply Z.mod_divide; [lia|].
  apply (f_equal (λ q, q * Qc_of_Z 5)) in Heq. rewrite fifths_times_5 in Heq.
  unfold pow2 in Heq. case_decide as He.
  - rewrite <- !Z2Qc_inj_mul in Heq. apply Z2Qc_inj in Heq.
    exists (m * 2 ^ e)%Z. lia.
  - assert (Hk : (0 ≤ - e)%Z) by lia.
    apply (f_equal (λ q, q * Qc_of_Z (2 ^ (- e)))) in Heq.
    replace (Qc_of_Z m * / Qc_of_Z (2 ^ (- e)) * Qc_of_Z 5 * Qc_of_Z (2 ^ (- e)))
      with (Qc_of_Z m * Qc_of_Z 5) in Heq.
    2:{ field. by apply Qc_of_Z_pow2_neq0. }
    rewrite <- !Z2Qc_inj_mul in Heq. apply Z2Qc_inj in Heq.
    assert (Hg : ∀ k : nat, (5 | 2 ^ Z.of_nat k * n)%Z → (5 | n)%Z).
    { induction k as [|k IH].
      - by rewrite Z.pow_0_r, Z.mul_1_l.
      - rewrite Nat2Z.inj_succ, Z.pow_succ_r by lia. intros [z Hz].
        apply IH. exists (3 * z - 2 ^ Z.of_nat k * n)%Z. lia. }
    apply (Hg (Z.to_nat (- e))). rewrite Z2Nat.id by lia.
    exists m. lia.
Qed.

(** On an asset that spans 0.125 to 0.75 the quotient [2 / maxDim] is
    16/5: the code has to round it, and the statements that ask for exact
    arithmetic do not cover this asset. *)
Example fifth_gltf_rounds :
  ndiv (Fin 2) (max3 (getSize (setFromObject (gltf_scene fifth_gltf))))
    = Fin (Q2Qc (16 # 5)) ∧
  ¬ binary64 (Q2Qc (16 # 5)) ∧
  ¬ Forall exact (load_arithmetic fifth_gltf).
Proof.
  assert (H : ¬ binary64 (Q2Qc (16 # 5))) by (by apply not_binary64_fifths).
  split; [compute_done|]. split; [exact H|].
  intros Hall. apply H.
  assert (Hin : Fin (Q2Qc (16 # 5)) ∈ load_arithmetic fifth_gltf).
  { unfold load_arithmetic. cbv zeta. rewrite !elem_of_app. right. right. right. left.
    apply list_elem_of_singleton. symmetry. compute_done. }
  exact (proj1 (Forall_forall _ _) Hall _ Hin).
Qed.

(* ================================================================== *)
(** * Normalisation of a loaded model on the sample asset (C1) *)
(* ================================================================== *)

(** C1 on the sample asset, whose box spans (0,0,0)-(4,2,2): after either
    load the largest dimension of the box is 2, but its centre is
    (-1, -0.5, -0.5), not the origin. *)
Theorem load_sample_off_centre upd :
  let url := run upd [EnvError; UrlLoaded sample_gltf] (mounted 800 600 true) in
  let file := run upd [EnvError; FileParsed sample_gltf] (mounted 800 600 true) in
  currentModelRef url = Some 5%nat ∧ currentModelRef file = Some 5%nat ∧
  getCenter <$> box_of url 5 = Some (fin3 (-1) (- dec 5 10) (- dec 5 10)) ∧
  getCenter <$> box_of file 5 = Some (fin3 (-1) (- dec 5 10) (- dec 5 10)) ∧
  max3 <$> (getSize <$> box_of url 5) = Some (Fin 2) ∧
  max3 <$> (getSize <$> box_of file 5) = Some (Fin 2) ∧
  getCenter <$> box_of url 5 ≠ Some vzero ∧
  getCenter <$> box_of file 5 ≠ Some vzero.
Proof. cbv zeta. repeat split; compute_done. Qed.

(** With a largest dimension of 0 the scale factor [2 / 0] is not finite,
    and neither is the box afterwards. *)
Example load_degenerate :
  let st := run orbit_still [EnvError; UrlLoaded point_gltf] (mounted 800 600 true) in
  scale <$> objects st !! 5%nat = Some (Vec3 NonFinite NonFinite NonFinite) ∧
  getCenter <$> box_of st 5 = Some (Vec3 NonFinite NonFinite NonFinite).
Proof. split; compute_done. Qed.

(* ================================================================== *)
(** * Colours typed into the text field *)
(* ================================================================== *)

Lemma hex_digit_range c d : hex_digit c = Some d → (0 ≤ d < 16)%Z.
Proof.
  unfold hex_digit. intros H.
  repeat match type of H with
         | (if ?b then _ else _) = _ => destruct b eqn:?
         end; try discriminate; injection H as <-;
    repeat match goal with
           | H : _ && _ = true |- _ => apply andb_true_iff in H as [? ?]
           | H : (_ <=? _)%Z = true |- _ => apply Z.leb_le in H
           end; lia.
Qed.

Lemma hex_digit_not_space c : is_hex_digit c = true → is_js_space c = false.
Proof.
  unfold is_hex_digit, hex_digit, is_js_space.
  set (n := nat_of_ascii c). intros H.
  destruct ((9 <=? n)%nat && (n <=? 13)%nat || (n =? 32)%nat || (n =? 160)%nat)
    eqn:Hsp; [|done].
  exfalso.
  assert (Hn : (9 ≤ n ≤ 13 ∨ n = 32 ∨ n = 160)%nat).
  { apply orb_true_iff in Hsp as [Hsp|Hsp].
    - apply orb_true_iff in Hsp as [Hsp|Hsp].
      + apply andb_true_iff in Hsp as [?%Nat.leb_le ?%Nat.leb_le]. lia.
      + apply Nat.eqb_eq in Hsp. lia.
    - apply Nat.eqb_eq in Hsp. lia. }
  repeat match type of H with
         | match (if ?b then _ else _) with _ => _ end = _ => destruct b eqn:?
         end; try discriminate;
    repeat match goal with
           | H : _ && _ = true |- _ => apply andb_true_iff in H as [? ?]
           | H : (_ <=? _)%Z = true |- _ => apply Z.leb_le in H
           end; lia.
Qed.

Lemma hex_prefix_all_hex s acc :
  all_hex s = true → (0 ≤ default 0 acc)%Z →
  (s ≠ EmptyString ∨ is_Some acc) →
  ∃ h, hex_prefix acc s = Some h ∧
       (16 ^ Z.of_nat (String.length s) * default 0 acc ≤ h
        < 16 ^ Z.of_nat (String.length s) * (default 0 acc + 1))%Z.
Proof.
  revert acc. induction s as [|c s IH]; intros acc Hall Hacc Hne.
  - destruct Hne as [?|[a ->]]; [done|]. exists a. split; [done|].
    change (Z.of_nat (String.length "")) with 0%Z. rewrite Z.pow_0_r.
    cbv [default from_option id]. lia.
  - cbn in Hall. apply andb_true_iff in Hall as [Hc Hs].
    unfold is_hex_digit in Hc. cbn [hex_prefix].
    destruct (hex_digit c) as [d|] eqn:Hd; [|done].
    pose proof (hex_digit_range c d Hd) as Hr.
    destruct (IH (Some (16 * default 0 acc + d)%Z) Hs) as (h & Hh & Hb).
    { cbn. lia. }
    { right. eauto. }
    exists h. split; [done|]. cbv [default from_option id] in Hb |- *.
    cbn [String.length]. rewrite Nat2Z.inj_succ, Z.pow_succ_r by lia.
    nia.
Qed.

Lemma is_hex_color_inv v :
  is_hex_color v = true →
  ∃ r, v = String "#" r ∧ String.length r = 6%nat ∧ all_hex r = true.
Proof.
  destruct v as [|c r]; [done|]. cbn.
  intros [[Hc Hl]%andb_true_iff Hh]%andb_true_iff.
  apply Ascii.eqb_eq in Hc as ->. apply Nat.eqb_eq in Hl. by exists r.
Qed.

Lemma strip_0x_all_hex r : all_hex r = true → strip_0x r = r.
Proof.
  destruct r as [|c [|c' r]]; [done|by destruct c as [[] [] [] [] [] [] [] []]|].
  unfold all_hex. cbn [list_ascii_of_string forallb].
  intros [_ [Hc' _]%andb_true_iff]%andb_true_iff.
  destruct (Ascii.eqb_spec c "0") as [->|Hne].
  - destruct c' as [[] [] [] [] [] [] [] []]; try reflexivity; discriminate Hc'.
  - destruct c as [[] [] [] [] [] [] [] []]; try reflexivity. by destruct Hne.
Qed.

Lemma parseInt16_all_hex r :
  all_hex r = true → parseInt16 r = hex_prefix None r.
Proof.
  intros Hall. unfold parseInt16.
  destruct r as [|c r]; [done|].
  pose proof Hall as [Hc _]%andb_true_iff.
  cbn [trim_start]. rewrite (hex_digit_not_space c Hc).
  pose proof (strip_0x_all_hex (String c r) Hall) as Hstrip.
  destruct c as [[] [] [] [] [] [] [] []]; try discriminate Hc;
    cbv match; by rewrite Hstrip.
Qed.

Lemma testbit_byte h k n :
  (0 ≤ k)%Z → (0 ≤ n)%Z →
  Z.testbit (Z.shiftl (Z.land (Z.shiftr h k) 255) k) n
  = Z.testbit h n && (k <=? n)%Z && (n <? k + 8)%Z.
Proof.
  intros Hk Hn. rewrite Z.shiftl_spec by done.
  destruct (Z.leb_spec k n) as [Hle|Hlt].
  - rewrite Z.land_spec, Z.shiftr_spec by lia.
    replace (n - k + k)%Z with n by lia. rewrite andb_true_r. f_equal.
    change 255%Z with (Z.ones 8).
    destruct (Z.ltb_spec n (k + 8)).
    + apply Z.ones_spec_low. lia.
    + apply Z.ones_spec_high. lia.
  - rewrite Z.testbit_neg_r by lia. by rewrite andb_false_r.
Qed.

Lemma getHex_setHex h : (0 ≤ h < 2 ^ 24)%Z → getHex (setHex (Some h)) = h.
Proof.
  intros Hh. unfold getHex, setHex. cbv [default from_option id cr cg cb].
  apply Z.bits_inj'. intros n Hn.
  replace (Z.land h 255) with (Z.shiftl (Z.land (Z.shiftr h 0) 255) 0)
    by (by rewrite Z.shiftl_0_r, Z.shiftr_0_r).
  rewrite !Z.lor_spec, !testbit_byte by lia.
  destruct (Z.testbit h n) eqn:Hbit; [|done]. cbn [andb].
  assert (n < 24)%Z.
  { destruct (Z.lt_ge_cases n 24) as [|H24]; [done|].
    rewrite (Z.bits_above_log2 h n) in Hbit; [done|lia|].
    destruct (Z.eq_dec h 0%Z) as [->|Hz]; [cbn; lia|].
    apply Z.lt_le_trans with 24%Z; [|lia]. apply Z.log2_lt_pow2; lia. }
  destruct (Z.leb_spec 16 n), (Z.ltb_spec n (16 + 8)), (Z.leb_spec 8 n),
    (Z.ltb_spec n (8 + 8)), (Z.leb_spec 0 n), (Z.ltb_spec n (0 + 8));
    try reflexivity; lia.
Qed.

(** Whatever passes the pattern of the text field parses, as [setMaterial]
    parses it, to a number below 2^24 (never [NaN]), and the colour that
    [setHex] stores for it reads back as that number. *)
Theorem accepted_color_is_24bit (v : string) :
  is_hex_color v = true →
  ∃ h, colorHex custom (Some v) = Some h ∧ (0 ≤ h < 2 ^ 24)%Z ∧
       getHex (setHex (colorHex custom (Some v))) = h.
Proof.
  intros Hv. destruct (is_hex_color_inv v Hv) as (r & -> & Hlen & Hall).
  unfold colorHex. cbn [truthy_string andb default from_option id].
  rewrite bool_decide_eq_true_2 by done.
  change (replace_hash (String "#" r)) with r.
  rewrite (parseInt16_all_hex r Hall).
  destruct (hex_prefix_all_hex r None Hall) as (h & Hh & Hb).
  { cbn. lia. }
  { left. intros ->. discriminate Hlen. }
  rewrite Hlen in Hb. cbv [default from_option id] in Hb.
  assert (Hr : (0 ≤ h < 2 ^ 24)%Z) by (change (2 ^ 24)%Z with (16 ^ Z.of_nat 6)%Z; lia).
  exists h. rewrite Hh. split; [done|]. split; [done|]. by apply getHex_setHex.
Qed.

Lemma accepted_color_is_24bit_witness :
  ∃ h, colorHex custom (Some "#1A2B3C") = Some h ∧ (0 ≤ h < 2 ^ 24)%Z ∧
       getHex (setHex (colorHex custom (Some "#1A2B3C"))) = h.
Proof. apply (accepted_color_is_24bit "#1A2B3C"). reflexivity. Defined.

(* ================================================================== *)
(** * Handlers that leave the custom colour and the environment alone *)
(* ================================================================== *)

Ltac side_frame :=
  intros; unfold side_of;
  repeat first
    [ progress cbn
    | match goal with
      | |- context [match ?x with _ => _ end] => destruct x eqn:?
      end ];
  repeat match goal with
         | H : sceneRef ?s = _ |- context [sceneRef ?s] => rewrite H
         end;
  first [reflexivity | congruence].

Lemma setMaterial_side t st : side_of (setMaterial t None st) = side_of st.
Proof. unfold setMaterial. rewrite andb_false_r. side_frame. Qed.

Lemma setMaterial_env t c st :
  envMapRef (setMaterial t c st) = envMapRef st ∧
  sceneRef (setMaterial t c st) = sceneRef st.
Proof. unfold setMaterial. split; repeat case_match; reflexivity. Qed.

Lemma captureScreenshot_side st : side_of (captureScreenshot st) = side_of st.
Proof. unfold captureScreenshot, render_once. side_frame. Qed.

Lemma toBlob_callback_side o b n st : side_of (toBlob_callback o b n st) = side_of st.
Proof. unfold toBlob_callback. side_frame. Qed.

Lemma setAutoRotate_side b st : side_of (setAutoRotate b st) = side_of st.
Proof. unfold setAutoRotate. side_frame. Qed.

Lemma toggleFullscreen_side st : side_of (toggleFullscreen st) = side_of st.
Proof. unfold toggleFullscreen. side_frame. Qed.

Lemma setLightingPreset_side p st : side_of (setLightingPreset p st) = side_of st.
Proof. unfold setLightingPreset, loadEnvironment. side_frame. Qed.

Lemma createDefaultRing_side st : side_of (createDefaultRing st) = side_of st.
Proof. unfold createDefaultRing, side_of. cbn. by destruct (sceneRef st). Qed.

Lemma resetScene_side st : side_of (resetScene st) = side_of st.
Proof. unfold resetScene. side_frame. Qed.

Lemma set_loading_side b st : side_of (set_loading b st) = side_of st.
Proof. reflexivity. Qed.

Lemma log_side e st : side_of (log e st) = side_of st.
Proof. reflexivity. Qed.

Lemma loadEnvironment_onError_side st : side_of (loadEnvironment_onError st) = side_of st.
Proof.
  unfold loadEnvironment_onError.
  destruct (sceneRef st) eqn:Hs; [|done]. cbv zeta.
  change (currentModelRef (log (Console "Error loading HDRI:") st))
    with (currentModelRef st).
  destruct (currentModelRef st); [apply log_side|].
  by rewrite set_loading_side, createDefaultRing_side, log_side.
Qed.

Section Sides.

Variable upd : Controls → Camera → Controls * Camera.

Lemma finish_update_side c cam st : side_of (finish_update upd c cam st) = side_of st.
Proof. unfold finish_update. by destruct (upd c cam). Qed.

Lemma cameraPreset_effect_side st : side_of (cameraPreset_effect upd st) = side_of st.
Proof.
  unfold cameraPreset_effect.
  repeat case_match; try reflexivity; rewrite finish_update_side;
    reflexivity.
Qed.

Lemma setCameraPreset_side p st : side_of (setCameraPreset upd p st) = side_of st.
Proof.
  unfold setCameraPreset. case_decide; [done|].
  by rewrite cameraPreset_effect_side.
Qed.

Lemma zoomToFit_side st : side_of (zoomToFit upd st) = side_of st.
Proof.
  unfold zoomToFit.
  repeat case_match; try reflexivity; rewrite finish_update_side; reflexivity.
Qed.

Lemma handleKeyPress_side e st : side_of (handleKeyPress upd e st) = side_of st.
Proof.
  unfold handleKeyPress.
  repeat case_match;
    auto using setAutoRotate_side, toggleFullscreen_side,
      captureScreenshot_side, setCameraPreset_side.
Qed.

Lemma loadModelFromURL_onLoad_side g st :
  side_of (loadModelFromURL_onLoad upd g st) = side_of st.
Proof.
  unfold loadModelFromURL_onLoad. destruct (sceneRef st) eqn:Hs; [|done].
  rewrite setCameraPreset_side. unfold side_of. cbn. rewrite Hs.
  repeat case_match; reflexivity.
Qed.

Lemma loadUserGLB_onLoad_side g st :
  side_of (loadUserGLB_onLoad upd g st) = side_of st.
Proof.
  unfold loadUserGLB_onLoad. destruct (sceneRef st) eqn:Hs; [|done].
  rewrite setCameraPreset_side. unfold side_of. cbn. rewrite Hs.
  repeat case_match; reflexivity.
Qed.

Lemma step_side st ev :
  colouring ev = false → side_of (step upd st ev) = side_of st.
Proof.
  destruct ev; intros [=]; cbn [step];
    try (by auto using setMaterial_side, captureScreenshot_side,
           toBlob_callback_side, setAutoRotate_side, toggleFullscreen_side,
           setLightingPreset_side, setCameraPreset_side, zoomToFit_side,
           handleKeyPress_side, loadEnvironment_onError_side, resetScene_side,
           loadModelFromURL_onLoad_side, loadUserGLB_onLoad_side).
  - unfold loadModelFromURL. side_frame.
  - unfold loadUserGLB. side_frame.
Qed.

End Sides.

(* ================================================================== *)
(** * The custom colour and the theme colour *)
(* ================================================================== *)

Lemma loadEnvironment_onLoad_customColor t st :
  customColor (loadEnvironment_onLoad t st) = customColor st.
Proof.
  unfold loadEnvironment_onLoad. destruct (sceneRef st); [|done]. cbn.
  by destruct (currentModelRef st).
Qed.

Lemma getThemeColor_hex m cc :
  is_hex_color cc = true → is_hex_color (getThemeColor m (Some cc)) = true.
Proof.
  intros Hcc. unfold getThemeColor.
  destruct (bool_decide (m = custom) && truthy_string (Some cc)); [done|].
  by destruct m.
Qed.

Section Colours.

Variable upd : Controls → Camera → Controls * Camera.

Lemma step_customColor_hex st ev :
  picker_ok ev → is_hex_color (customColor st) = true →
  is_hex_color (customColor (step upd st ev)) = true.
Proof.
  intros Hev Hst. destruct (colouring ev) eqn:Hc.
  2:{ pose proof (step_side upd st ev Hc) as [= -> _ _]. done. }
  destruct ev; try discriminate; cbn [step].
  - by rewrite loadEnvironment_onLoad_customColor.
  - unfold color_picker_onChange. rewrite setMaterial_customColor.
    cbn in Hev. by destruct (bool_decide (custom = custom) && truthy_string (Some value)).
  - unfold color_text_onChange. destruct (is_hex_color value) eqn:Hv; [|done].
    rewrite setMaterial_customColor.
    by destruct (bool_decide (custom = custom) && truthy_string (Some value)).
Qed.

(** As long as the colour input reports well-formed values, the custom
    colour of the state is a [#rrggbb] string after any run from mount, and
    so is the theme colour derived from it: the text field never lets
    anything else through, and no other handler writes the cell. *)
Theorem customColor_always_hex w h c (evs : list Event) :
  Forall picker_ok evs →
  is_hex_color (customColor (run upd evs (mounted w h c))) = true ∧
  is_hex_color (themeColor (run upd evs (mounted w h c))) = true.
Proof.
  intros Hevs.
  assert (H : ∀ st, is_hex_color (customColor st) = true →
                    is_hex_color (customColor (run upd evs st)) = true).
  { induction evs as [|ev evs IH]; intros st Hst; cbn; [done|].
    apply Forall_cons_1 in Hevs as [Hev Hevs].
    apply IH; [done|]. by apply step_customColor_hex. }
  split; [by apply H|]. apply getThemeColor_hex. by apply H.
Qed.

End Colours.

Lemma customColor_always_hex_witness :
  let evs := [ColorTyped "#1A2B3C"; ColorTyped "1A2B3C"; ColorPicked "#00ff7f";
              MaterialClicked platinum] in
  is_hex_color (customColor (run orbit_still evs (mounted 800 600 true))) = true ∧
  is_hex_color (themeColor (run orbit_still evs (mounted 800 600 true))) = true.
Proof.
  apply (customColor_always_hex orbit_still 800 600 true).
  repeat constructor.
Defined.

(* ================================================================== *)
(** * The environment of the scene and the environment map *)
(* ================================================================== *)

Section Environment.

Variable upd : Controls → Camera → Controls * Camera.

Lemma step_environment st ev :
  environment <$> sceneRef st = Some (envMapRef st) →
  environment <$> sceneRef (step upd st ev) = Some (envMapRef (step upd st ev)).
Proof.
  intros Hst. destruct (colouring ev) eqn:Hc.
  2:{ pose proof (step_side upd st ev Hc) as [= _ H2 H3]. by rewrite H2, H3. }
  destruct ev; try discriminate; cbn [step].
  - unfold loadEnvironment_onLoad.
    destruct (sceneRef st) as [scene|] eqn:Hs; [|done]. cbv zeta.
    change (currentModelRef (set_objects _ (set_envMapRef _ (set_sceneRef _ st))))
      with (currentModelRef st).
    destruct (currentModelRef st); reflexivity.
  - unfold color_picker_onChange.
    destruct (setMaterial_env custom (Some value) (set_customColor value st)) as [-> ->].
    exact Hst.
  - unfold color_text_onChange. destruct (is_hex_color value); [|done].
    destruct (setMaterial_env custom (Some value) (set_customColor value st)) as [-> ->].
    exact Hst.
Qed.

(** After any run from mount the environment of the scene is the
    environment map that new materials are given: the two are only ever
    set together, by the success callback of an environment request. *)
Theorem environment_is_envMapRef w h c (evs : list Event) :
  environment <$> sceneRef (run upd evs (mounted w h c))
  = Some (envMapRef (run upd evs (mounted w h c))).
Proof.
  assert (H : ∀ st, environment <$> sceneRef st = Some (envMapRef st) →
            environment <$> sceneRef (run upd evs st) = Some (envMapRef (run upd evs st))).
  { induction evs as [|ev evs IH]; intros st Hst; cbn; [done|].
    apply IH. by apply step_environment. }
  by apply H.
Qed.

End Environment.

(* ================================================================== *)
(** * Loads that fail *)
(* ================================================================== *)

(** The three ways a load ends without a model (the error callback of the
    URL loader, the parse error of a dropped file, the timer of a short
    link): scene, current model, ring, store and statistics are those of
    before, the loading flag is down, and no request left that had not
    left before. *)
Theorem failed_loads_keep_model (st st' : State) (url : string) :
  is_Some (sceneRef st) → includes url "skfb.ly" = true →
  st' ∈ [loadModelFromURL_onError st; loadUserGLB_onError st;
         sketchfab_timeout (loadModelFromURL url st)] →
  refs_of st' = refs_of st ∧ objects st' = objects st ∧
  modelInfo st' = modelInfo st ∧ loading st' = false ∧
  (∀ u, Fetch u ∈ effects st' → Fetch u ∈ effects st) ∧
  cameraRef st' = cameraRef st.
Proof.
  intros [scene Hs] Hurl Hin.
  assert (Hfetch : ∀ (es : list Effect) u e,
            (∀ v, e ≠ Fetch v) → Fetch u ∈ es ++ [e] → Fetch u ∈ es).
  { intros es u e He [?|Hx%list_elem_of_singleton]%elem_of_app; [done|].
    by destruct (He u). }
  repeat (apply elem_of_cons in Hin as [->|Hin]); [| | |by apply elem_of_nil in Hin].
  - repeat split; try reflexivity. intros u. cbn. by apply Hfetch.
  - repeat split; try reflexivity. intros u. cbn.
    intros H1. apply Hfetch in H1; [|done]. by apply Hfetch in H1.
  - unfold loadModelFromURL. rewrite Hs, Hurl.
    repeat split; try reflexivity; try (unfold refs_of; cbn; by rewrite ?Hs).
    intros u. cbn. intros H1.
    apply Hfetch in H1; [|done]. apply Hfetch in H1; [|done]. by apply Hfetch in H1.
Qed.

Lemma failed_loads_keep_model_witness :
  let st := loadEnvironment_onError (mounted 800 600 true) in
  let st' := sketchfab_timeout (loadModelFromURL "https://skfb.ly/abc" st) in
  refs_of st' = refs_of st ∧ objects st' = objects st ∧
  modelInfo st' = modelInfo st ∧ loading st' = false ∧
  (∀ u, Fetch u ∈ effects st' → Fetch u ∈ effects st) ∧
  cameraRef st' = cameraRef st.
Proof.
  apply (failed_loads_keep_model
           (loadEnvironment_onError (mounted 800 600 true)) _ "https://skfb.ly/abc").
  - eexists. reflexivity.
  - reflexivity.
  - apply elem_of_cons. right. apply elem_of_cons. right. apply elem_of_cons. by left.
Defined.

(* ================================================================== *)
(** * More invariants of the runs from mount *)
(* ================================================================== *)

Lemma remove_first_not_elem x (l : list nat) : x ∉ l → remove_first x l = l.
Proof.
  induction l as [|y l IH]; cbn; [done|].
  rewrite not_elem_of_cons. intros [Hne Hl]. rewrite decide_False by done.
  by rewrite IH.
Qed.

Section Runs.

Variable upd : Controls → Camera → Controls * Camera.

Lemma step_no_ring st ev :
  is_Some (currentModelRef st) → defaultRingRef st = None →
  is_Some (currentModelRef (step upd st ev)) ∧ defaultRingRef (step upd st ev) = None.
Proof.
  intros [cur Hc] Hd. destruct (structural ev) eqn:Hev.
  2:{ pose proof (step_refs upd st ev Hev) as [= _ -> ->]. by rewrite Hc. }
  destruct ev; try discriminate; cbn [step].
  - unfold loadEnvironment_onLoad. destruct (sceneRef st); cbn; rewrite ?Hc; eauto.
  - unfold loadEnvironment_onError. destruct (sceneRef st); cbn; rewrite ?Hc; eauto.
  - destruct (sceneRef st) as [scene|] eqn:Hs.
    + pose proof (loadModelFromURL_onLoad_refs upd gltf st scene Hs) as [= _ -> ->]. eauto.
    + unfold loadModelFromURL_onLoad. rewrite Hs. eauto.
  - destruct (sceneRef st) as [scene|] eqn:Hs.
    + pose proof (loadUserGLB_onLoad_refs upd gltf st scene Hs) as [= _ -> ->]. eauto.
    + unfold loadUserGLB_onLoad. rewrite Hs. eauto.
  - unfold resetScene. destruct (sceneRef st); [|by eauto].
    rewrite Hc, Hd. case_decide; cbn; eauto.
Qed.

(** The ring is only built while no model has ever been current.  If a
    model arrives first (a URL load that beats the environment request),
    no later event builds the ring, so [resetScene] has nothing to put
    back. *)
Theorem no_ring_after_early_model w h c (before after : list Event) :
  let st := run upd before (mounted w h c) in
  is_Some (currentModelRef st) → defaultRingRef st = None →
  defaultRingRef (run upd after st) = None ∧
  is_Some (currentModelRef (run upd after st)).
Proof.
  intros st. generalize st. clear st.
  induction after as [|ev after IH]; intros st Hc Hd; cbn; [done|].
  destruct (step_no_ring st ev Hc Hd). by apply IH.
Qed.

(** After any run from mount there is a scene, no object is attached to it
    twice, and whatever is attached beyond the four lights is the ring or
    the current model: at most two models, never more. *)
Theorem at_most_two_models w h c (evs : list Event) :
  let st := run upd evs (mounted w h c) in
  ∃ scene, sceneRef st = Some scene ∧ NoDup (children scene) ∧
    (∀ id, id ∈ children scene →
       (id < 4)%nat ∨ Some id = defaultRingRef st ∨ Some id = currentModelRef st) ∧
    (length (filter (λ id, 4 ≤ id)%nat (children scene)) ≤ 2)%nat.
Proof.
  intros st.
  destruct (run_wf upd evs _ (mounted_wf w h c)) as (scene & Hs & Hnd & _).
  fold st in Hs. pose proof (run_known upd w h c evs scene) as Hk. fold st in Hk.
  exists scene. split; [done|]. split; [done|]. split; [intros id; by apply Hk|].
  set (l := filter _ _).
  set (k := option_list (defaultRingRef st) ++ option_list (currentModelRef st)).
  trans (length k).
  - apply submseteq_length, NoDup_submseteq; [by apply NoDup_filter|].
    intros x [Hx Hin]%list_elem_of_filter. unfold k. apply elem_of_app.
    destruct (Hk x Hs Hin) as [?|[<-|<-]]; [lia|left|right];
      by apply list_elem_of_singleton.
  - unfold k. rewrite length_app.
    destruct (defaultRingRef st), (currentModelRef st); cbn; lia.
Qed.

(** Once the ring exists its ref never changes, whatever follows, and the
    object it names keeps the nodes and material classes of the ring. *)
Theorem ring_ref_stable w h c (before after : list Event) (r : nat) :
  let st := run upd before (mounted w h c) in
  defaultRingRef st = Some r →
  defaultRingRef (run upd after st) = Some r ∧
  ∃ ring, objects (run upd after st) !! r = Some ring ∧
          same_shape (new_ring None) ring.
Proof.
  intros st Hd.
  assert (Hwf : scene_wf st) by apply run_wf, mounted_wf.
  assert (Hd' : defaultRingRef (run upd after st) = Some r) by by apply run_keeps_ring.
  split; [done|].
  unfold st in *. unfold run in *. rewrite <- fold_left_app in *.
  by apply (run_ring_stored upd w h c (before ++ after) r).
Qed.

Lemma run_kept evs st : store_kept (objects st) (objects (run upd evs st)).
Proof.
  revert st. induction evs as [|ev evs IH]; intros st; cbn.
  { apply store_kept_refl. }
  eapply store_kept_trans; [apply step_kept|apply IH].
Qed.

(** No event removes or replaces a stored object: after any events an
    object is still in the store under its index, with its nodes and the
    classes of its materials, and the store is at least as long.  A model
    that is replaced is only detached. *)
Theorem store_only_grows (evs : list Event) (st : State) :
  store_kept (objects st) (objects (run upd evs st)) ∧
  (length (objects st) ≤ length (objects (run upd evs st)))%nat.
Proof.
  pose proof (run_kept evs st) as Hk. split; [done|].
  destruct (objects st) as [|o os] eqn:Ho using rev_ind; [cbn; lia|].
  destruct (Hk (length os) o) as (o' & Ho' & _).
  { rewrite lookup_app_r by done. by rewrite Nat.sub_diag. }
  apply lookup_lt_Some in Ho'. rewrite length_app. cbn. lia.
Qed.

(** In a state reached from mount a second reset changes nothing. *)
Theorem resetScene_idempotent w h c (evs : list Event) :
  let st := run upd evs (mounted w h c) in
  resetScene (resetScene st) = resetScene st.
Proof.
  intros st.
  destruct (run_wf upd evs _ (mounted_wf w h c)) as (scene & Hs & Hnd & _).
  fold st in Hs. clearbody st.
  unfold resetScene at 2 3. rewrite Hs.
  destruct (currentModelRef st) as [cur|] eqn:Hc.
  2:{ unfold resetScene. by rewrite Hs, Hc. }
  case_decide as Hcd.
  { unfold resetScene. rewrite Hs, Hc. by rewrite decide_True. }
  destruct (defaultRingRef st) as [ring|] eqn:Hd.
  - unfold resetScene. cbn. rewrite Hd. by rewrite decide_True.
  - unfold resetScene. cbn. rewrite Hc, Hd. rewrite decide_False by done.
    unfold set_sceneRef. cbn.
    replace (scene_remove cur (scene_remove cur scene)) with (scene_remove cur scene);
      [done|].
    unfold scene_remove. cbn. f_equal. symmetry.
    apply remove_first_not_elem. by apply not_elem_of_remove_first.
Qed.

End Runs.

Lemma no_ring_after_early_model_witness :
  let st := run orbit_still [UrlLoaded sample_gltf] (mounted 800 600 true) in
  let after := [EnvLoaded (MkTexture "studio.hdr" UVMapping); ResetClicked; EnvError] in
  defaultRingRef (run orbit_still after st) = None ∧
  is_Some (currentModelRef (run orbit_still after st)).
Proof.
  apply (no_ring_after_early_model orbit_still 800 600 true [UrlLoaded sample_gltf]).
  - eexists. vm_compute. reflexivity.
  - vm_compute. reflexivity.
Defined.

(** In that run the reset leaves the scene without any model. *)
Example early_model_reset_leaves_nothing :
  attached_models
    (run orbit_still
       [UrlLoaded sample_gltf; EnvLoaded (MkTexture "studio.hdr" UVMapping); ResetClicked]
       (mounted 800 600 true)) = [].
Proof. vm_compute. reflexivity. Qed.

Lemma ring_ref_stable_witness :
  let st := run orbit_still [EnvError] (mounted 800 600 true) in
  let after := [FileParsed sample_gltf; MaterialClicked platinum; ResetClicked] in
  defaultRingRef (run orbit_still after st) = Some 4%nat ∧
  ∃ ring, objects (run orbit_still after st) !! 4%nat = Some ring ∧
          same_shape (new_ring None) ring.
Proof.
  apply (ring_ref_stable orbit_still 800 600 true [EnvError]).
  vm_compute. reflexivity.
Defined.

(* ================================================================== *)
(** * Environment maps and detached objects *)
(* ================================================================== *)

Lemma scene_traverse_other f ids (os : list Object3D) id :
  id ∉ ids → scene_traverse f ids os !! id = os !! id.
Proof.
  revert os. induction ids as [|j ids IH]; intros os Hid; cbn; [done|].
  apply not_elem_of_cons in Hid as [Hne Hid].
  unfold scene_traverse in IH. rewrite IH by done.
  by apply list_lookup_alter_ne.
Qed.

(** The success callback of an environment request reaches attached objects
    only: an object that is in the store but not a child of the scene (the
    ring while an external model is shown) is left as it is, old
    environment map included. *)
Theorem environment_skips_detached (st : State) scene loaded (id : nat) (o : Object3D) :
  sceneRef st = Some scene → id ∉ children scene →
  objects st !! id = Some o →
  objects (loadEnvironment_onLoad loaded st) !! id = Some o.
Proof.
  intros Hs Hid Ho. rewrite loadEnvironment_onLoad_objects, Hs. cbv zeta.
  assert (H : scene_traverse
                (env_callback (MkTexture (tex_source loaded) EquirectangularReflectionMapping))
                (children scene) (objects st) !! id = Some o)
    by (by rewrite scene_traverse_other).
  destruct (currentModelRef st); [done|].
  rewrite lookup_app_l; [done|]. by eapply lookup_lt_Some.
Qed.

Lemma environment_skips_detached_witness :
  let t1 := MkTexture "studio.hdr" UVMapping in
  let t2 := MkTexture "soft.hdr" UVMapping in
  let st := run orbit_still [EnvLoaded t1; FileParsed sample_gltf] (mounted 800 600 true) in
  objects (loadEnvironment_onLoad t2 st) !! 4%nat
  = Some (new_ring (Some (MkTexture "studio.hdr" EquirectangularReflectionMapping))).
Proof.
  apply (environment_skips_detached _ (MkScene [0; 1; 2; 3; 5]%nat
           (Some (MkTexture "studio.hdr" EquirectangularReflectionMapping)) 0x1a1a1a%Z)).
  - vm_compute. reflexivity.
  - cbn. rewrite !not_elem_of_cons. repeat split; try lia. apply not_elem_of_nil.
  - vm_compute. reflexivity.
Defined.

(** So after a switch of lighting made while a dropped model was shown,
    the reset brings back a ring that still reflects the old environment. *)
Example reset_shows_stale_environment :
  let t1 := MkTexture "studio.hdr" UVMapping in
  let t2 := MkTexture "soft.hdr" UVMapping in
  let st := run orbit_still [EnvLoaded t1; FileParsed sample_gltf; EnvLoaded t2; ResetClicked]
                (mounted 800 600 true) in
  attached_models st = [4%nat] ∧
  envMapRef st = Some (MkTexture "soft.hdr" EquirectangularReflectionMapping) ∧
  envMap <$> material_of st 4 0
  = Some (Some (MkTexture "studio.hdr" EquirectangularReflectionMapping)).
Proof. cbv zeta. repeat split; vm_compute; reflexivity. Qed.

Lemma loadEnvironment_onLoad_propagates_witness :
  let t1 := MkTexture "studio.hdr" UVMapping in
  let st := run orbit_still [EnvError; FileParsed sample_gltf] (mounted 800 600 true) in
  ∃ m', material_of (loadEnvironment_onLoad t1 st) 5 1 = Some m' ∧
        envMap m' = Some (MkTexture "studio.hdr" EquirectangularReflectionMapping) ∧
        needsUpdate m' = true.
Proof.
  eapply (loadEnvironment_onLoad_propagates _ (MkScene [0; 1; 2; 3; 5]%nat None 0x111111%Z)
            (MkTexture "studio.hdr" UVMapping) 5 5 _
            (MkMesh (MkGeometry 8 None [(1, 1, 1); (2, 2, 2)]) (OneMaterial 1) true true)
            1 (sample_material "Gem" 0)).
  - vm_compute. reflexivity.
  - vm_compute. reflexivity.
  - cbn. rewrite !elem_of_cons. auto 10.
  - vm_compute. reflexivity.
  - vm_compute. apply elem_of_cons. right. apply elem_of_cons. by left.
  - reflexivity.
  - reflexivity.
  - reflexivity.
Defined.

Lemma loadEnvironment_completion_keeps_model_witness :
  let st := loadEnvironment_onError (mounted 800 600 true) in
  let t := MkTexture "studio.hdr" UVMapping in
  currentModelRef (loadEnvironment_onLoad t st) = currentModelRef st ∧
  length (objects (loadEnvironment_onLoad t st)) = length (objects st) ∧
  currentModelRef (loadEnvironment_onError st) = currentModelRef st ∧
  objects (loadEnvironment_onError st) = objects st.
Proof.
  apply (loadEnvironment_completion_keeps_model
           (loadEnvironment_onError (mounted 800 600 true))).
  eexists. reflexivity.
Defined.

(* ================================================================== *)
(** * The camera after a load *)
(* ================================================================== *)

Section CameraAfterLoad.

Variable upd : Controls → Camera → Controls * Camera.

Lemma setCameraPreset_same p st :
  cameraPreset st = p → setCameraPreset upd p st = st.
Proof. intros <-. unfold setCameraPreset. by rewrite decide_True. Qed.

(** Both loaders end with [setCameraPreset('front')].  While the recorded
    preset is already "front" (it is at mount) that call changes nothing:
    camera and controls stay where they were and are not framed on the new
    model. *)
Theorem load_keeps_camera_on_front (g : GLTF) (st st' : State) :
  cameraPreset st = front →
  st' = loadModelFromURL_onLoad upd g st ∨ st' = loadUserGLB_onLoad upd g st →
  cameraRef st' = cameraRef st ∧ controlsRef st' = controlsRef st ∧
  cameraPreset st' = front.
Proof.
  intros Hp [-> | ->].
  - unfold loadModelFromURL_onLoad. destruct (sceneRef st); [|done].
    rewrite setCameraPreset_same by exact Hp. by rewrite <- Hp.
  - unfold loadUserGLB_onLoad. destruct (sceneRef st); [|done].
    rewrite setCameraPreset_same by exact Hp. by rewrite <- Hp.
Qed.

End CameraAfterLoad.

Lemma load_keeps_camera_on_front_witness :
  let st := loadEnvironment_onError (mounted 800 600 true) in
  let st' := loadUserGLB_onLoad orbit_still sample_gltf st in
  cameraRef st' = cameraRef st ∧ controlsRef st' = controlsRef st ∧
  cameraPreset st' = front.
Proof.
  apply (load_keeps_camera_on_front orbit_still sample_gltf
           (loadEnvironment_onError (mounted 800 600 true)));
    [reflexivity | by right].
Defined.

(* ================================================================== *)
(** * A resize during a capture *)
(* ================================================================== *)

(** The callback of [toBlob] writes back the size read at the start of the
    capture.  A resize of the window that happens in between is undone by
    it: the renderer ends at the old size, not at the size of the window. *)
Theorem resize_during_capture_is_undone upd (st : State) (r : Renderer)
    (w h : Z) (blob : bool) (now : N) :
  rendererRef st = Some r →
  rendererRef (run upd [ScreenshotClicked; WindowResized w h] st)
    = Some (MkRenderer w h) ∧
  rendererRef (run upd [ScreenshotClicked; WindowResized w h; BlobReady r blob now] st)
    = Some r.
Proof.
  intros Hr. cbn [run fold_left step].
  assert (H1 : is_Some (rendererRef (captureScreenshot st))).
  { unfold captureScreenshot, render_once. rewrite Hr. cbn.
    repeat case_match; cbn; eauto. }
  destruct H1 as [r1 H1].
  assert (H2 : rendererRef (handleResize w h (captureScreenshot st)) = Some (MkRenderer w h)).
  { unfold handleResize. cbn. by rewrite H1. }
  split; [done|].
  apply toBlob_callback_restores. by rewrite H2.
Qed.

Lemma resize_during_capture_is_undone_witness :
  let st := mounted 800 600 true in
  rendererRef (run orbit_still [ScreenshotClicked; WindowResized 1024 768] st)
    = Some (MkRenderer 1024 768) ∧
  rendererRef (run orbit_still [ScreenshotClicked; WindowResized 1024 768;
                                BlobReady (MkRenderer 800 600) true 1700000000000] st)
    = Some (MkRenderer 800 600).
Proof.
  apply (resize_during_capture_is_undone orbit_still (mounted 800 600 true)
           (MkRenderer 800 600)).
  reflexivity.
Defined.

(* ================================================================== *)
(** * Keys *)
(* ================================================================== *)

Lemma lower_ascii_idem c : lower_ascii (lower_ascii c) = lower_ascii c.
Proof. by destruct c as [[] [] [] [] [] [] [] []]. Qed.

Lemma toLowerCase_idem s : toLowerCase (toLowerCase s) = toLowerCase s.
Proof. induction s as [|c s IH]; cbn; [done|]. by rewrite lower_ascii_idem, IH. Qed.

(** The shortcuts do not depend on the case of the key, and a key that is
    none of r, f, s, c, 1-5 (in either case) does nothing. *)
Theorem handleKeyPress_by_lower_case upd (e : KeyboardEvent) (st : State) :
  handleKeyPress upd (MkKey (target_is_input e) (toLowerCase (key e))) st
    = handleKeyPress upd e st ∧
  (toLowerCase (key e) ∉ ["r"; "f"; "s"; "c"; "1"; "2"; "3"; "4"; "5"] →
   handleKeyPress upd e st = st).
Proof.
  split.
  - unfold handleKeyPress. cbn [target_is_input key]. by rewrite toLowerCase_idem.
  - intros Hk. unfold handleKeyPress. destruct (target_is_input e); [done|]. cbv zeta.
    repeat match goal with
           | |- (if String.eqb ?a ?b then _ else _) = _ =>
               destruct (String.eqb_spec a b) as [Heq|_];
               [exfalso; apply Hk; rewrite Heq, !elem_of_cons; auto 12|]
           end.
    reflexivity.
Qed.

(* ================================================================== *)
(** * What [setMaterial] reaches, and a second application *)
(* ================================================================== *)

Lemma setMaterial_objects_external type c (st : State) settings id :
  settings_of type c = Some settings →
  currentModelRef st = Some id → defaultRingRef st ≠ Some id →
  objects (setMaterial type c st)
  = alter (λ o, set_mats (traverse_materials (glb_callback settings (envMapRef st))
                            (root o) (mats o)) o) id (objects st).
Proof.
  intros Hset Hcur Hdef. unfold setMaterial. rewrite Hset.
  destruct (bool_decide (type = custom) && truthy_string c);
    cbn [currentModelRef defaultRingRef objects envMapRef
         set_customColor set_currentMaterial];
    rewrite Hcur; (rewrite decide_False by (intros Heq; by apply Hdef));
    reflexivity.
Qed.

(** [setMaterial] writes to the current model only: every other object of
    the store, attached or not, keeps its materials. *)
Theorem setMaterial_only_current_model type c (st : State) (id : nat) :
  currentModelRef st ≠ Some id →
  objects (setMaterial type c st) !! id = objects st !! id.
Proof.
  intros Hne. unfold setMaterial.
  destruct (bool_decide (type = custom) && truthy_string c);
    (destruct (settings_of type c) as [settings|]; [|reflexivity]);
    cbn [currentModelRef defaultRingRef objects envMapRef
         set_customColor set_currentMaterial];
    (destruct (currentModelRef st) as [cur|] eqn:Hcur; [|reflexivity]);
    case_decide; cbn [objects set_objects];
    apply list_lookup_alter_ne; congruence.
Qed.

Lemma setMaterial_only_current_model_witness :
  let st := run orbit_still [EnvError; FileParsed sample_gltf] (mounted 800 600 true) in
  objects (setMaterial platinum None st) !! 4%nat = objects st !! 4%nat.
Proof.
  apply (setMaterial_only_current_model platinum None
           (run orbit_still [EnvError; FileParsed sample_gltf] (mounted 800 600 true))).
  vm_compute. discriminate.
Defined.

(** So a material chosen while a dropped model is shown is not on the ring
    that the reset brings back, although it stays the selected one. *)
Example reset_shows_unselected_material :
  let st := run orbit_still
              [EnvError; FileParsed sample_gltf; MaterialClicked platinum; ResetClicked]
              (mounted 800 600 true) in
  attached_models st = [4%nat] ∧ currentMaterial st = platinum ∧
  getHex <$> (color <$> material_of st 4 0) = Some 0xFFD700%Z.
Proof. cbv zeta. repeat split; vm_compute; reflexivity. Qed.

Section VisitedFrom.

(** A callback [f] that keeps the class of a material and, on a material
    with [Q], keeps [Q] and makes [P] true. *)
Variable f : Material → Material.
Variables P Q : Material → Prop.
Hypothesis f_class : ∀ m, mat_class (f m) = mat_class m.
Hypothesis f_step : ∀ m, Q m → P (f m) ∧ Q (f m).

Lemma on_standard_keeps_from i slot (ms : list Material) :
  done_at Q i ms → done_at Q i (on_standard f slot ms).
Proof.
  intros (m & Hm & HQ & Hstd). destruct slot as [|j|l]; cbn; try by exists m.
  destruct (decide (j = i)) as [->|Hne].
  - exists (f m). rewrite list_lookup_alter_eq, Hm. cbn. rewrite Hstd.
    split; [done|]. split; [by apply f_step|by rewrite f_class].
  - exists m. by rewrite list_lookup_alter_ne.
Qed.

Lemma on_standard_keeps_both i slot (ms : list Material) :
  done_at (λ m, P m ∧ Q m) i ms → done_at (λ m, P m ∧ Q m) i (on_standard f slot ms).
Proof.
  intros (m & Hm & [HP HQ] & Hstd). destruct slot as [|j|l]; cbn; try by exists m.
  destruct (decide (j = i)) as [->|Hne].
  - exists (f m). rewrite list_lookup_alter_eq, Hm. cbn. rewrite Hstd.
    split; [done|]. split; [by apply f_step|by rewrite f_class].
  - exists m. by rewrite list_lookup_alter_ne.
Qed.

Lemma traverse_materials_visited_from (n : Node) (ms : list Material) mesh i :
  mesh ∈ meshes n → material mesh = OneMaterial i →
  done_at Q i ms →
  done_at (λ m, P m ∧ Q m) i (traverse_materials f n ms).
Proof.
  unfold traverse_materials. generalize (meshes n). intros l. revert ms.
  induction l as [|x l IH]; intros ms Hin Hslot HQ.
  - by apply elem_of_nil in Hin.
  - cbn. apply elem_of_cons in Hin as [<-|Hin].
    + assert (H : done_at (λ m, P m ∧ Q m) i (on_standard f (material mesh) ms)).
      { destruct HQ as (m & Hm & HQ & Hstd). rewrite Hslot. exists (f m). cbn.
        rewrite list_lookup_alter_eq, Hm. cbn. rewrite Hstd.
        split; [done|]. split; [by apply f_step|by rewrite f_class]. }
      clear IH HQ. revert H. generalize (on_standard f (material mesh) ms).
      induction l as [|y l IHl]; intros ms' H; cbn; [done|].
      apply IHl. by apply on_standard_keeps_both.
    + apply IH; [done|done|]. by apply on_standard_keeps_from.
Qed.

End VisitedFrom.

Lemma settings_of_metalness type c settings :
  settings_of type c = Some settings → dec 5 10 < s_metalness settings.
Proof.
  unfold settings_of. destruct type; cbn; intros [= <-]; compute_done.
Qed.

(** The test [material.metalness > 0.5] reads a field that the callback
    itself writes, and every selectable material has a metalness above 0.5.
    So after one application every visited material counts as metal, and
    the second application of the same material also writes the
    environment intensity that the first one left out on the others. *)
Theorem setMaterial_twice_sets_intensity (st : State) (type : MaterialType)
    (color_arg : option string) (settings : Settings) (id : nat) (model : Object3D) :
  settings_of type color_arg = Some settings →
  currentModelRef st = Some id → defaultRingRef st ≠ Some id →
  objects st !! id = Some model →
  (∀ m, is_metal_like (glb_callback settings (envMapRef st) m) = true) ∧
  (∀ mesh i m,
     mesh ∈ meshes (root model) → material mesh = OneMaterial i →
     mats model !! i = Some m → isStandard (mat_class m) = true →
     ∃ m', material_of (setMaterial type color_arg (setMaterial type color_arg st)) id i
             = Some m' ∧
           envMapIntensity m' = s_envMapIntensity settings).
Proof.
  intros Hset Hcur Hdef Hmodel.
  pose proof (settings_of_metalness _ _ _ Hset) as Hmet.
  assert (Hlike : ∀ m, s_metalness settings = metalness m → is_metal_like m = true).
  { intros m Hm. unfold is_metal_like. rewrite <- Hm.
    rewrite (bool_decide_eq_true_2 _ Hmet). by rewrite orb_true_r. }
  split.
  { intros m. apply Hlike. symmetry.
    apply (glb_callback_fields settings (envMapRef st) m). }
  intros mesh i m Hmesh Hslot Hm Hstd.
  pose proof (setMaterial_refs type color_arg st) as Hrefs.
  unfold refs_of in Hrefs. injection Hrefs as _ Hcur1 Hdef1.
  destruct (setMaterial_env type color_arg st) as [Henv1 _].
  unfold material_of.
  rewrite (setMaterial_objects_external type color_arg (setMaterial type color_arg st)
             settings id Hset) by congruence.
  rewrite (setMaterial_objects_external type color_arg st settings id Hset Hcur Hdef).
  rewrite Henv1. rewrite !list_lookup_alter_eq, Hmodel. cbn.
  set (f := glb_callback settings (envMapRef st)).
  set (Q := λ m' : Material, metalness m' = s_metalness settings).
  set (P := λ m' : Material, envMapIntensity m' = s_envMapIntensity settings).
  assert (H1 : done_at Q i (traverse_materials f (root model) (mats model))).
  { destruct (traverse_materials_visited f
                (λ m', color m' = setHex (s_color settings) ∧
                       metalness m' = s_metalness settings ∧
                       roughness m' = s_roughness settings)
                (glb_callback_class settings (envMapRef st))
                (glb_callback_fields settings (envMapRef st))
                (root model) (mats model) mesh i m Hmesh Hslot Hm Hstd)
      as (m1 & Hm1 & (_ & HQ & _) & Hstd1).
    by exists m1. }
  destruct (traverse_materials_visited_from f P Q
              (glb_callback_class settings (envMapRef st))) with
    (n := root model) (ms := traverse_materials f (root model) (mats model))
    (mesh := mesh) (i := i) as (m2 & Hm2 & [HP2 _] & _); try done.
  { intros m0 HQ0. split.
    - unfold P, f. rewrite glb_callback_envMapIntensity.
      by rewrite (Hlike m0).
    - apply (glb_callback_fields settings (envMapRef st) m0). }
  exists m2. split; [exact Hm2 | exact HP2].
Qed.

Lemma setMaterial_twice_sets_intensity_witness :
  let st := run orbit_still [EnvError; UrlLoaded sample_gltf] (mounted 800 600 true) in
  ∃ model, objects st !! 5%nat = Some model ∧
  (∀ m, is_metal_like
          (glb_callback (MkSettings (Some 0xffffff%Z) (dec 9 10) (dec 3 10) (dec 7 10))
             (envMapRef st) m) = true) ∧
  (∀ mesh i m,
     mesh ∈ meshes (root model) → material mesh = OneMaterial i →
     mats model !! i = Some m → isStandard (mat_class m) = true →
     ∃ m', material_of (setMaterial platinum None (setMaterial platinum None st)) 5 i
             = Some m' ∧
           envMapIntensity m' = dec 7 10).
Proof.
  eexists. split; [vm_compute; reflexivity|].
  apply (setMaterial_twice_sets_intensity _ platinum None
           (MkSettings (Some 0xffffff%Z) (dec 9 10) (dec 3 10) (dec 7 10)) 5);
    [reflexivity | vm_compute; reflexivity | vm_compute; discriminate
    | vm_compute; reflexivity].
Defined.

(** On the sample asset: the stone keeps its intensity through the first
    click on platinum and takes that of platinum at the second. *)
Example second_click_changes_stone :
  let st := run orbit_still [EnvError; UrlLoaded sample_gltf] (mounted 800 600 true) in
  envMapIntensity <$> material_of (run orbit_still [MaterialClicked platinum] st) 5 1
    = Some 1 ∧
  envMapIntensity <$> material_of
      (run orbit_still [MaterialClicked platinum; MaterialClicked platinum] st) 5 1
    = Some (dec 7 10).
Proof. cbv zeta. split; compute_done. Qed.

(* ================================================================== *)
(** * The frame counter *)
(* ================================================================== *)

Lemma ticks_quiet (times : list Qc) (k : FrameClock) :
  Forall (λ t, t - lastFrameTime k < Qc_of_Z 1000) times →
  ticks times k
  = MkClock (frameCount k + N.of_nat (length times)) (lastFrameTime k) (fps k).
Proof.
  revert k. induction times as [|t times IH]; intros k H.
  - cbn. rewrite N.add_0_r. by destruct k.
  - apply Forall_cons_1 in H as [Ht H]. unfold ticks. cbn [fold_left].
    fold (ticks times (tick t k)).
    assert (Hk : tick t k = MkClock (frameCount k + 1) (lastFrameTime k) (fps k)).
    { unfold tick. rewrite decide_False; [done|]. by apply Qclt_not_le. }
    rewrite Hk. rewrite IH by exact H. cbn [frameCount lastFrameTime fps length]. f_equal. lia.
Qed.

(** The value shown as FPS is the number of frames since the last report,
    the reporting frame included, however long that took: it is a count,
    not a rate.  The report comes with the first frame that is at least
    1000 ms after the last one. *)
Theorem fps_counts_frames (times : list Qc) (t : Qc) (k : FrameClock) :
  Forall (λ t', t' - lastFrameTime k < Qc_of_Z 1000) times →
  Qc_of_Z 1000 ≤ t - lastFrameTime k →
  ticks (times ++ [t]) k
  = MkClock 0 t (frameCount k + N.of_nat (length times) + 1).
Proof.
  intros Hq Ht. pose proof (ticks_quiet times k Hq) as Hk.
  unfold ticks in *. rewrite fold_left_app, Hk. cbn [fold_left]. unfold tick.
  cbn [frameCount lastFrameTime fps]. by rewrite decide_True.
Qed.

Lemma fps_counts_frames_witness :
  ticks ([Qc_of_Z 100; Qc_of_Z 400] ++ [Qc_of_Z 5000]) (MkClock 0 0 60)
  = MkClock 0 (Qc_of_Z 5000) (0 + N.of_nat (length [Qc_of_Z 100; Qc_of_Z 400]) + 1).
Proof.
  apply (fps_counts_frames [Qc_of_Z 100; Qc_of_Z 400] (Qc_of_Z 5000) (MkClock 0 0 60)).
  - repeat constructor; compute_done.
  - compute_done.
Defined.

(* ================================================================== *)
(** * Fullscreen *)
(* ================================================================== *)

(** [toggleFullscreen] decides on [document.fullscreenElement], which only
    a [fullscreenchange] event moves, and not on [isFullscreen].  Two
    toggles with no such event in between therefore send the same request
    twice and leave the flag where the first put it: they do not cancel.
    The event itself brings the flag back to the document. *)
Theorem toggleFullscreen_reads_document (st : State) (element : bool) :
  effects (toggleFullscreen (toggleFullscreen st))
    = effects st ++ (if fullscreenElement st
                     then [ExitFullscreen; ExitFullscreen]
                     else [RequestFullscreen; RequestFullscreen]) ∧
  isFullscreen (toggleFullscreen (toggleFullscreen st)) = negb (fullscreenElement st) ∧
  isFullscreen (toggleFullscreen st) = negb (fullscreenElement st) ∧
  isFullscreen (handleFullscreenChange element st) = element ∧
  fullscreenElement (handleFullscreenChange element st) = element.
Proof.
  unfold toggleFullscreen, handleFullscreenChange, log.
  destruct (fullscreenElement st) eqn:Hf; cbn; rewrite Hf; cbn;
    by rewrite <- app_assoc.
Qed.

Lemma handleKeyPress_by_lower_case_witness :
  handleKeyPress orbit_still (MkKey false "X") (mounted 800 600 true)
  = mounted 800 600 true.
Proof.
  apply (handleKeyPress_by_lower_case orbit_still (MkKey false "X") (mounted 800 600 true)).
  cbn. rewrite !not_elem_of_cons. repeat split; try discriminate. apply not_elem_of_nil.
Defined.
